(** * Binary-Search-Visualisation: the search tracer, the step navigator and
      the bar-colour view of [app.py], embedded in Rocq.

    The Python program has three classes.  [BinarySearchAlgorithm] runs an
    iterative binary search and records one dictionary per decision point;
    [BinarySearchVisualizer] picks one colour per array position from such a
    dictionary; [BinarySearchApp] holds the recorded list together with a
    cursor and moves the cursor on user commands.

    Python integers are unbounded, so indices and values are [Z].  A Python
    list of integers is a [list Z]; the step dictionaries have a fixed set
    of keys and are records.  Subscripting can raise [IndexError], which is
    the only exception the modelled code can raise; it is kept as an explicit
    outcome. *)

From Stdlib Require Import ZArith List Bool Lia String Ascii Sorted.
From Stdlib Require Import Permutation.
From Stdlib Require Import DecimalString.
From Equations Require Import Equations.
Import ListNotations.

Local Open Scope string_scope.
Local Open Scope Z_scope.

Set Implicit Arguments.

(** ** Outcomes of a call *)

Inductive result (A : Type) : Type :=
| Ok (a : A)
| IndexError.
Arguments Ok {A} a.
Arguments IndexError {A}.

Definition bind {A B : Type} (r : result A) (k : A -> result B) : result B :=
  match r with
  | Ok a => k a
  | IndexError => IndexError
  end.

Notation "x <- r ;; k" := (bind r (fun x => k))
  (at level 61, r at next level, right associativity).

(** ** Python primitives used by the source *)

(** [len(l)] as a Python integer. *)
Definition len {A : Type} (l : list A) : Z := Z.of_nat (List.length l).

(** [l[i]]: indices [0 .. len-1] address the elements, indices
    [-len .. -1] count from the end, anything else raises [IndexError]. *)
Definition py_index {A : Type} (l : list A) (i : Z) : result A :=
  if (0 <=? i) && (i <? len l) then
    match nth_error l (Z.to_nat i) with
    | Some x => Ok x
    | None => IndexError
    end
  else if (- len l <=? i) && (i <? 0) then
    match nth_error l (Z.to_nat (len l + i)) with
    | Some x => Ok x
    | None => IndexError
    end
  else IndexError.

(** [str(z)] for an integer. *)
Definition str (z : Z) : string := NilZero.string_of_int (Z.to_int z).

(** [str(v)] for a value that is an integer or [None]. *)
Definition str_opt (v : option Z) : string :=
  match v with
  | Some z => str z
  | None => "None"
  end.

(** ** Step records *)

(** The values stored under ['comparison'] (besides [None]). *)
Inductive comparison_t : Type := Equal | Less | Greater.

(** The values stored under ['status']. *)
Inductive status_t : Type := Searching | Found | NotFound.

(** One step dictionary.  The keys ['left'], ['right'], ['mid'] and
    ['comparison'] hold an integer (a tag) or [None]. *)
Record step : Type := mkStep {
  left : option Z;
  right : option Z;
  mid : option Z;
  comparison : option comparison_t;
  message : string;
  status : status_t
}.

(** ** class BinarySearchAlgorithm *)

Record BinarySearchAlgorithm : Type := mkAlg {
  array : list Z;
  target : Z;
  steps : list step;
  comparisons : Z;
  found : bool;
  found_index : Z
}.

(** [BinarySearchAlgorithm.__init__]. *)
Definition BinarySearchAlgorithm_init (array : list Z) (target : Z)
  : BinarySearchAlgorithm :=
  {| array := array; target := target; steps := [];
     comparisons := 0; found := false; found_index := -1 |}.

(** [self.steps.append(d)]. *)
Definition append_step (self : BinarySearchAlgorithm) (d : step)
  : BinarySearchAlgorithm :=
  {| array := array self; target := target self;
     steps := (steps self ++ [d])%list;
     comparisons := comparisons self;
     found := found self; found_index := found_index self |}.

(** [self.comparisons += 1]. *)
Definition count_comparison (self : BinarySearchAlgorithm)
  : BinarySearchAlgorithm :=
  {| array := array self; target := target self; steps := steps self;
     comparisons := comparisons self + 1;
     found := found self; found_index := found_index self |}.

(** [self.found = True; self.found_index = mid]. *)
Definition set_found (self : BinarySearchAlgorithm) (mid : Z)
  : BinarySearchAlgorithm :=
  {| array := array self; target := target self; steps := steps self;
     comparisons := comparisons self;
     found := true; found_index := mid |}.

(** The four kinds of dictionaries that [execute] appends. *)
Definition initial_step (self : BinarySearchAlgorithm) (l r : Z) : step :=
  {| left := Some l; right := Some r; mid := None; comparison := None;
     message := "Starting search for " ++ str (target self)
                ++ " in array of size " ++ str (len (array self));
     status := Searching |}.

Definition found_step (self : BinarySearchAlgorithm) (l r m v : Z) : step :=
  {| left := Some l; right := Some r; mid := Some m;
     comparison := Some Equal;
     message := "Step " ++ str (comparisons self) ++ ": Found! Array["
                ++ str m ++ "] = " ++ str v ++ " equals target "
                ++ str (target self);
     status := Found |}.

Definition less_step (self : BinarySearchAlgorithm) (l r m v : Z) : step :=
  {| left := Some l; right := Some r; mid := Some m;
     comparison := Some Less;
     message := "Step " ++ str (comparisons self) ++ ": Array["
                ++ str m ++ "] = " ++ str v ++ " < " ++ str (target self)
                ++ ". Searching right half.";
     status := Searching |}.

Definition greater_step (self : BinarySearchAlgorithm) (l r m v : Z) : step :=
  {| left := Some l; right := Some r; mid := Some m;
     comparison := Some Greater;
     message := "Step " ++ str (comparisons self) ++ ": Array["
                ++ str m ++ "] = " ++ str v ++ " > " ++ str (target self)
                ++ ". Searching left half.";
     status := Searching |}.

Definition not_found_step (self : BinarySearchAlgorithm) (l r : Z) : step :=
  {| left := Some l; right := Some r; mid := None; comparison := None;
     message := "Search complete: " ++ str (target self)
                ++ " not found in array after " ++ str (comparisons self)
                ++ " comparisons";
     status := NotFound |}.

(** The state of the [while] loop: the locals [left] and [right] and the
    object [self]. *)
Record loop_state : Type := mkLoop {
  ls_left : Z;
  ls_right : Z;
  ls_self : BinarySearchAlgorithm
}.

(** The number of candidate positions still between [left] and [right]. *)
Definition span (l r : Z) : nat := Z.to_nat (r - l + 1).

(** The [while left <= right] loop of [execute], lines 53-90.  The [break]
    of the ['equal'] branch is the branch without a recursive call. *)
Equations? while_loop (l r : Z) (self : BinarySearchAlgorithm)
  : result loop_state by wf (span l r) lt :=
  while_loop l r self with Z_le_gt_dec l r => {
    | Specif.right _ => Ok (mkLoop l r self)
    | Specif.left _ =>
        let m := (l + r) / 2 in
        match py_index (array self) m with
        | IndexError => IndexError
        | Ok mid_value =>
            let self1 := count_comparison self in
            if mid_value =? target self1 then
              Ok (mkLoop l r
                    (append_step (set_found self1 m)
                       (found_step (set_found self1 m) l r m mid_value)))
            else if mid_value <? target self1 then
              while_loop (m + 1) r
                (append_step self1 (less_step self1 l r m mid_value))
            else
              while_loop l (m - 1)
                (append_step self1 (greater_step self1 l r m mid_value))
        end }.
Proof.
  all: unfold span; subst m.
  - assert ((l + r) / 2 < r + 1) by (apply Z.div_lt_upper_bound; lia).
    assert (l <= (l + r) / 2) by (apply Z.div_le_lower_bound; lia). lia.
  - assert (l <= (l + r) / 2) by (apply Z.div_le_lower_bound; lia).
    assert ((l + r) / 2 < r + 1) by (apply Z.div_lt_upper_bound; lia). lia.
Qed.

(** [BinarySearchAlgorithm.execute].  The returned list is [self.steps]
    itself, so the outcome is the updated object. *)
Definition execute (self : BinarySearchAlgorithm)
  : result BinarySearchAlgorithm :=
  let l := 0 in
  let r := len (array self) - 1 in
  let self := append_step self (initial_step self l r) in
  st <- while_loop l r self ;;
  let self := ls_self st in
  if negb (found self) then
    Ok (append_step self
          (not_found_step self (ls_left st) (ls_right st)))
  else Ok self.


(** ** class BinarySearchVisualizer *)

(** The keys of the [self.colors] dictionary. *)
Module Color.
Inductive key : Type := default | eliminated | current | found.
End Color.

Record BinarySearchVisualizer : Type := mkVis {
  colors : Color.key -> string
}.

(** [BinarySearchVisualizer.__init__]. *)
Definition BinarySearchVisualizer_init : BinarySearchVisualizer :=
  {| colors := fun k =>
       match k with
       | Color.default => "#1f3a93"
       | Color.eliminated => "#d3d3d3"
       | Color.current => "#ffd700"
       | Color.found => "#32cd32"
       end |}.

Definition status_eqb (a b : status_t) : bool :=
  match a, b with
  | Searching, Searching | Found, Found | NotFound, NotFound => true
  | _, _ => false
  end.

(** [i == v] where [v] is an integer or [None]. *)
Definition eq_opt (i : Z) (v : option Z) : bool :=
  match v with
  | Some z => i =? z
  | None => false
  end.

(** [v is not None]. *)
Definition is_not_None {A : Type} (v : option A) : bool :=
  match v with
  | Some _ => true
  | None => false
  end.

(** The body of the [for i in range(len(array))] loop of
    [create_bar_chart], lines 140-150: the key of the colour appended for
    position [i]. *)
Definition bar_color (step_data : step) (i : Z) : Color.key :=
  if status_eqb (status step_data) Found && eq_opt i (mid step_data) then
    Color.found
  else if is_not_None (mid step_data) && eq_opt i (mid step_data) then
    Color.current
  else
    match left step_data, right step_data with
    | Some l, Some r =>
        if (i <? l) || (i >? r) then Color.eliminated else Color.default
    | _, _ => Color.default
    end.

(** [range(n)]. *)
Definition range (n : Z) : list Z := map Z.of_nat (seq 0 (Z.to_nat n)).

(** [status.replace('_', ' ').title()] on the three status strings. *)
Definition status_title (s : status_t) : string :=
  match s with
  | Searching => "Searching"
  | Found => "Found"
  | NotFound => "Not Found"
  end.

(** What [create_bar_chart] draws: one bar per position with its height and
    colour, under a title.  The PNG encoding of the figure is not modelled. *)
Record chart : Type := mkChart {
  bar_heights : list Z;
  bar_colors : list string;
  chart_title : string
}.

(** [BinarySearchVisualizer.create_bar_chart]. *)
Definition create_bar_chart (self : BinarySearchVisualizer)
    (array : list Z) (step_data : step) : chart :=
  {| bar_heights := array;
     bar_colors :=
       map (fun i => colors self (bar_color step_data i)) (range (len array));
     chart_title :=
       ("Binary Search Visualization - "
        ++ status_title (status step_data))%string |}.

(** ** class BinarySearchApp *)

Record BinarySearchApp : Type := mkApp {
  current_array : list Z;
  current_target : option Z;
  algorithm : option BinarySearchAlgorithm;
  visualizer : BinarySearchVisualizer;
  current_step : Z;
  all_steps : list step;
  is_playing : bool
}.

(** [BinarySearchApp.__init__]. *)
Definition BinarySearchApp_init : BinarySearchApp :=
  {| current_array := []; current_target := None; algorithm := None;
     visualizer := BinarySearchVisualizer_init;
     current_step := 0; all_steps := []; is_playing := false |}.

(** [self.current_step = c]. *)
Definition set_current_step (self : BinarySearchApp) (c : Z)
  : BinarySearchApp :=
  {| current_array := current_array self;
     current_target := current_target self;
     algorithm := algorithm self; visualizer := visualizer self;
     current_step := c; all_steps := all_steps self;
     is_playing := is_playing self |}.

(** [self.is_playing = b]. *)
Definition set_is_playing (self : BinarySearchApp) (b : bool)
  : BinarySearchApp :=
  {| current_array := current_array self;
     current_target := current_target self;
     algorithm := algorithm self; visualizer := visualizer self;
     current_step := current_step self; all_steps := all_steps self;
     is_playing := b |}.

(** The tuple [(image, stats_text, log_text, step_info)] that the handlers
    return; the image is [None] when there is nothing to draw. *)
Record display : Type := mkDisplay {
  image : option chart;
  stats_text : string;
  log_text : string;
  step_info : string
}.

Definition nl : string := String "010"%char EmptyString.

(** The f-string of lines 277-282.  Every step dictionary has the keys
    ['left'] and ['right'], so [step_data.get(key, 'N/A')] is the stored
    value. *)
Definition stats_fstring (comparisons_so_far : Z) (step_data : step) (n : Z)
  : string :=
  ("**Statistics:**" ++ nl
   ++ "- Comparisons so far: " ++ str comparisons_so_far ++ nl
   ++ "- Current search range: [" ++ str_opt (left step_data) ++ ", "
   ++ str_opt (right step_data) ++ "]" ++ nl
   ++ "- Time Complexity: O(log n)" ++ nl
   ++ "- Array size (n): " ++ str n ++ nl)%string.

(** The loop of lines 285-287: the messages of the steps at the indices
    [idx], in order. *)
Fixpoint log_lines (all_steps : list step) (idx : list Z)
  : result (list string) :=
  match idx with
  | [] => Ok []
  | i :: rest =>
      d <- py_index all_steps i ;;
      tl <- log_lines all_steps rest ;;
      Ok (message d :: tl)
  end.

(** [BinarySearchApp.display_current_step]; it reads the object and does
    not change it. *)
Definition display_current_step (self : BinarySearchApp) : result display :=
  match all_steps self with
  | [] => Ok (mkDisplay None "No search initialized" "" "Step 0 of 0")
  | _ :: _ =>
      step_data <- py_index (all_steps self) (current_step self) ;;
      let img :=
        create_bar_chart (visualizer self) (current_array self) step_data in
      let stats :=
        stats_fstring (current_step self) step_data
          (len (current_array self)) in
      lines <- log_lines (all_steps self) (range (current_step self + 1)) ;;
      let log := String.concat nl lines in
      let info :=
        ("Step " ++ str (current_step self + 1) ++ " of "
         ++ str (len (all_steps self)))%string in
      Ok (mkDisplay (Some img) stats log info)
  end.

(** [BinarySearchApp.initialize_search], with [target] already an integer.
    The outcome is the updated object and the returned tuple. *)
Definition initialize_search (self : BinarySearchApp)
    (array : list Z) (target : Z) : result (BinarySearchApp * display) :=
  match array with
  | [] => Ok (self, mkDisplay None "Please generate an array first" ""
                      "Step 0 of 0")
  | _ :: _ =>
      alg <- execute (BinarySearchAlgorithm_init array target) ;;
      let self :=
        {| current_array := current_array self;
           current_target := Some target;
           algorithm := Some alg; visualizer := visualizer self;
           current_step := 0; all_steps := steps alg;
           is_playing := is_playing self |} in
      d <- display_current_step self ;;
      Ok (self, d)
  end.

(** [BinarySearchApp.next_step]: the object after the call, and what
    [display_current_step] returned or raised. *)
Definition next_step (self : BinarySearchApp)
  : BinarySearchApp * result display :=
  let self :=
    if current_step self <? len (all_steps self) - 1 then
      set_current_step self (current_step self + 1)
    else set_is_playing self false in
  (self, display_current_step self).

(** [BinarySearchApp.previous_step]. *)
Definition previous_step (self : BinarySearchApp)
  : BinarySearchApp * result display :=
  let self :=
    if current_step self >? 0 then
      set_current_step self (current_step self - 1)
    else self in
  (self, display_current_step self).

(** [BinarySearchApp.reset_search]. *)
Definition reset_search (self : BinarySearchApp)
  : BinarySearchApp * result display :=
  let self := set_current_step self 0 in
  match all_steps self with
  | _ :: _ => (self, display_current_step self)
  | [] => (self, Ok (mkDisplay None "No search to reset" "" "Step 0 of 0"))
  end.

(** [BinarySearchApp.toggle_auto_play]. *)
Definition toggle_auto_play (self : BinarySearchApp)
  : BinarySearchApp * string :=
  let self := set_is_playing self (negb (is_playing self)) in
  (self, if is_playing self then "Stop Auto-Play" else "Start Auto-Play").

(** [BinarySearchApp.auto_play_step]: the object after the call, and the
    display tuple extended by the flag that tells whether to continue. *)
Definition auto_play_step (self : BinarySearchApp)
  : BinarySearchApp * result (display * bool) :=
  if negb (is_playing self) then
    (self, d <- display_current_step self ;; Ok (d, false))
  else if current_step self <? len (all_steps self) - 1 then
    let self := set_current_step self (current_step self + 1) in
    (self, d <- display_current_step self ;; Ok (d, true))
  else
    let self := set_is_playing self false in
    (self, d <- display_current_step self ;; Ok (d, false)).

(** The truth value of a list. *)
Definition py_bool {A : Type} (l : list A) : bool :=
  match l with
  | [] => false
  | _ :: _ => true
  end.

(** The steps the generator [run_auto_play] still has to show. *)
Definition frames_left (app : BinarySearchApp) : nat :=
  Z.to_nat (len (all_steps app) - 1 - current_step app).

(** The generator [run_auto_play] of [create_interface], lines 465-475, for
    a positive [speed]: the object when the generator is exhausted and the
    values it yields, in order.  A yield whose [display_current_step] raises
    ends the generator; it is the last entry.  The pause between two yields
    is not modelled. *)
Equations? run_auto_play (app : BinarySearchApp)
  : BinarySearchApp * list (result display) by wf (frames_left app) lt :=
  run_auto_play app
    with bool_dec (py_bool (all_steps app)
                   && (current_step app <? len (all_steps app) - 1)) true => {
    | Specif.left _ =>
        let app1 := set_current_step app (current_step app + 1) in
        match display_current_step app1 with
        | Ok d =>
            (fst (run_auto_play app1), Ok d :: snd (run_auto_play app1))
        | IndexError => (app1, [IndexError])
        end
    | Specif.right _ => (app, [display_current_step app]) }.
Proof.
  all: apply andb_prop in e; destruct e as [_ Hlt];
    apply Z.ltb_lt in Hlt; unfold frames_left; cbn; lia.
Qed.

(** The handler of [target_input.change]: [setattr(app, 'current_target',
    int(t))]. *)
Definition set_current_target (self : BinarySearchApp) (t : Z)
  : BinarySearchApp :=
  {| current_array := current_array self;
     current_target := Some t;
     algorithm := algorithm self; visualizer := visualizer self;
     current_step := current_step self; all_steps := all_steps self;
     is_playing := is_playing self |}.

(** ** [generate_array] *)

(** The exceptions [generate_array] can raise, and the outcome of a call. *)
Inductive exception : Type := ExcIndexError | ExcValueError.

Inductive outcome (A : Type) : Type :=
| Returned (a : A)
| Raised (e : exception).
Arguments Returned {A} a.
Arguments Raised {A} e.

(** [sorted(l)] and [l.sort()] on a list of integers: the ascending
    rearrangement of [l].  There is only one, so the sorting method does not
    show; this one inserts the elements one by one. *)
Fixpoint insert_ascending (x : Z) (l : list Z) : list Z :=
  match l with
  | [] => [x]
  | y :: rest =>
      if x <=? y then x :: y :: rest else y :: insert_ascending x rest
  end.

Definition sorted (l : list Z) : list Z := fold_right insert_ascending [] l.

(** [x in l]. *)
Definition py_in (x : Z) (l : list Z) : bool := existsb (Z.eqb x) l.

(** [l[i] = v]: the same indices as for reading; the list keeps its
    length. *)
Definition py_setitem {A : Type} (l : list A) (i : Z) (v : A)
  : result (list A) :=
  let put (n : nat) := (firstn n l ++ v :: skipn (S n) l)%list in
  if (0 <=? i) && (i <? len l) then Ok (put (Z.to_nat i))
  else if (- len l <=? i) && (i <? 0) then Ok (put (Z.to_nat (len l + i)))
  else IndexError.

(** [self.current_array = a]. *)
Definition set_current_array (self : BinarySearchApp) (a : list Z)
  : BinarySearchApp :=
  {| current_array := a;
     current_target := current_target self;
     algorithm := algorithm self; visualizer := visualizer self;
     current_step := current_step self; all_steps := all_steps self;
     is_playing := is_playing self |}.

(** [BinarySearchApp.generate_array], with [size] and [target_value] already
    integers.  The two random draws are arguments: [sample] is what
    [random.sample(range(1, 101), size)] returned and [random_index] what
    [random.randint(0, size - 1)] returned.  [random.sample] raises
    [ValueError] for a negative [size] and for one above the 100 values of
    the range; [random.randint] raises it for the empty range [0 .. -1].
    The outcome is the object after the call and what was returned or
    raised. *)
Definition generate_array (self : BinarySearchApp) (size : Z)
    (guarantee_target : bool) (target_value : Z)
    (sample : list Z) (random_index : Z)
  : BinarySearchApp * outcome (list Z * string) :=
  if (size <? 0) || (100 <? size) then (self, Raised ExcValueError)
  else
    let self := set_current_array self (sorted sample) in
    let message :=
      ("Generated sorted array of size " ++ str size)%string in
    if guarantee_target && negb (py_in target_value (current_array self))
    then
      if size - 1 <? 0 then (self, Raised ExcValueError)
      else
        match py_setitem (current_array self) random_index target_value with
        | IndexError => (self, Raised ExcIndexError)
        | Ok replaced =>
            let self := set_current_array self (sorted replaced) in
            (self, Returned (current_array self, message))
        end
    else (self, Returned (current_array self, message)).

(** What [random.sample(range(1, 101), size)] can return: [size] different
    values between 1 and 100. *)
Definition is_sample (size : Z) (sample : list Z) : Prop :=
  len sample = size /\ NoDup sample /\
  Forall (fun x => 1 <= x <= 100) sample.

(** What [random.randint(0, size - 1)] can return. *)
Definition is_randint (size : Z) (random_index : Z) : Prop :=
  0 <= random_index <= size - 1.

(** * Vocabulary of the properties *)

(** ** Runs of the loop *)

(** One pass through the loop body at [l <= r], as a function of what the
    remaining iterations return. *)
Definition loop_body (l r : Z) (self : BinarySearchAlgorithm)
    (rest : Z -> Z -> BinarySearchAlgorithm -> result loop_state)
  : result loop_state :=
  let m := (l + r) / 2 in
  mid_value <- py_index (array self) m ;;
  let self1 := count_comparison self in
  if mid_value =? target self1 then
    Ok (mkLoop l r
          (append_step (set_found self1 m)
             (found_step (set_found self1 m) l r m mid_value)))
  else if mid_value <? target self1 then
    rest (m + 1) r (append_step self1 (less_step self1 l r m mid_value))
  else
    rest l (m - 1) (append_step self1 (greater_step self1 l r m mid_value)).

(** A step dictionary written by a loop iteration: it holds the bounds and
    the midpoint of that iteration, the midpoint is a position of the array
    between the bounds, and the tag and the status tell how the value there
    compares with the target. *)
Definition compared (arr : list Z) (t : Z) (d : step) : Prop :=
  exists l r m v,
    left d = Some l /\ right d = Some r /\ mid d = Some m /\
    m = (l + r) / 2 /\
    0 <= l /\ l <= m /\ m <= r /\ r <= len arr - 1 /\
    py_index arr m = Ok v /\
    ((comparison d = Some Equal /\ status d = Found /\ v = t) \/
     (comparison d = Some Less /\ status d = Searching /\ v < t) \/
     (comparison d = Some Greater /\ status d = Searching /\ v > t)).

Definition is_searching (d : step) : Prop := status d = Searching.

(** The state [st] in which the loop stops when it was started on the
    object [self], and the steps [new] it has appended on the way. *)
Record loop_post (self : BinarySearchAlgorithm) (st : loop_state)
    (new : list step) : Prop := mkPost {
  post_array : array (ls_self st) = array self;
  post_target : target (ls_self st) = target self;
  post_steps : steps (ls_self st) = (steps self ++ new)%list;
  post_comparisons :
    comparisons (ls_self st) = comparisons self + len new;
  post_compared : Forall (compared (array self) (target self)) new;
  post_outcome :
    (found (ls_self st) = true /\
     exists pre d, new = (pre ++ [d])%list /\ Forall is_searching pre /\
       status d = Found /\ mid d = Some (found_index (ls_self st))) \/
    (found (ls_self st) = found self /\
     found_index (ls_self st) = found_index self /\
     Forall is_searching new /\ ls_left st > ls_right st)
}.

(** The object when the loop is entered. *)
Definition entered (arr : list Z) (t : Z) : BinarySearchAlgorithm :=
  let self := BinarySearchAlgorithm_init arr t in
  append_step self (initial_step self 0 (len arr - 1)).

(** What [execute] returns once the loop has stopped in [st]. *)
Definition finished (st : loop_state) : BinarySearchAlgorithm :=
  if found (ls_self st) then ls_self st
  else append_step (ls_self st)
         (not_found_step (ls_self st) (ls_left st) (ls_right st)).

(** ** Traces *)

(** A step with a terminal status. *)
Definition is_terminal (d : step) : bool :=
  match status d with
  | Searching => false
  | Found | NotFound => true
  end.

(** A step that records a comparison. *)
Definition has_mid (d : step) : bool := is_not_None (mid d).

(** What a step records, without its message. *)
Definition outline (d : step)
  : option Z * option Z * option Z * option comparison_t * status_t :=
  (left d, right d, mid d, comparison d, status d).

(** The array of the worked scenario: ten ascending values. *)
Definition scenario_array : list Z := [1; 5; 9; 12; 17; 23; 29; 34; 41; 50].

(** ** Colours *)

(** The three conditions the colour selection tests, in its order. *)
Definition found_cond (d : step) (i : Z) : Prop :=
  status d = Found /\ mid d = Some i.

Definition mid_cond (d : step) (i : Z) : Prop :=
  mid d <> None /\ mid d = Some i.

Definition eliminated_cond (d : step) (i : Z) : Prop :=
  exists l r, left d = Some l /\ right d = Some r /\ (i < l \/ i > r).

(** ** Sessions *)

(** A trace is bound: there are recorded steps and the cursor points at one
    of them. *)
Definition bound (s : BinarySearchApp) : Prop :=
  all_steps s <> [] /\ 0 <= current_step s <= len (all_steps s) - 1.

(** Every attribute except the cursor and the auto-play flag is the same. *)
Definition same_session (s s' : BinarySearchApp) : Prop :=
  current_array s' = current_array s /\
  current_target s' = current_target s /\
  algorithm s' = algorithm s /\
  visualizer s' = visualizer s /\
  all_steps s' = all_steps s.

(** Every attribute except the cursor is the same. *)
Definition only_cursor_changed (s s' : BinarySearchApp) : Prop :=
  same_session s s' /\ is_playing s' = is_playing s.

(** The object after [generate_array] has stored [arr]. *)
Definition generated (arr : list Z) : BinarySearchApp :=
  {| current_array := arr; current_target := None; algorithm := None;
     visualizer := BinarySearchVisualizer_init;
     current_step := 0; all_steps := []; is_playing := false |}.

(** The object after a search for [t] in the stored array was started; the
    object itself if [initialize_search] raised. *)
Definition searching_for (s : BinarySearchApp) (t : Z) : BinarySearchApp :=
  match initialize_search s (current_array s) t with
  | Ok (s', _) => s'
  | IndexError => s
  end.

(** [n] calls of [next_step]. *)
Fixpoint advance_by (n : nat) (s : BinarySearchApp) : BinarySearchApp :=
  match n with
  | O => s
  | S n' => advance_by n' (fst (next_step s))
  end.

(** The scenario array searched for the absent value 24, auto-play switched
    on, the cursor advanced to the last of the six steps. *)
Definition playing_at_end : BinarySearchApp :=
  advance_by 5
    (fst (toggle_auto_play (searching_for (generated scenario_array) 24))).

(** The scenario array searched for 23, the cursor on the third of the four
    steps. *)
Definition found_search_midway : BinarySearchApp :=
  advance_by 2 (searching_for (generated scenario_array) 23).

(** The comparisons recorded in the steps [0 .. c] of a trace: the steps
    whose ['comparison'] is not [None]. *)
Definition comparisons_recorded (all : list step) (c : Z) : Z :=
  len (filter (fun d => is_not_None (comparison d))
         (firstn (Z.to_nat (c + 1)) all)).

(** The scenario array searched for the absent value 24, the cursor on the
    last of the six steps. *)
Definition absent_search_at_end : BinarySearchApp :=
  advance_by 5 (searching_for (generated scenario_array) 24).

(** ** Search intervals *)

(** The interval of the second step lies within the interval of the
    first. *)
Definition within (d1 d2 : step) : Prop :=
  exists l1 r1 l2 r2,
    left d1 = Some l1 /\ right d1 = Some r1 /\
    left d2 = Some l2 /\ right d2 = Some r2 /\
    l1 <= l2 /\ r2 <= r1.

(** The intervals of the steps [ds] lie within [l .. r], each within the
    one before it. *)
Fixpoint narrowing (l r : Z) (ds : list step) : Prop :=
  match ds with
  | [] => True
  | d :: rest =>
      exists l' r',
        left d = Some l' /\ right d = Some r' /\ l <= l' /\ r' <= r /\
        narrowing l' r' rest
  end.


(** ** Sequences of calls *)

(** [n] calls of [previous_step]. *)
Fixpoint retreat_by (n : nat) (s : BinarySearchApp) : BinarySearchApp :=
  match n with
  | O => s
  | S n' => retreat_by n' (fst (previous_step s))
  end.

(** [n] calls of [auto_play_step]. *)
Fixpoint auto_play_by (n : nat) (s : BinarySearchApp) : BinarySearchApp :=
  match n with
  | O => s
  | S n' => auto_play_by n' (fst (auto_play_step s))
  end.

(** The calls that reach the object: the handlers wired in
    [create_interface] and the two auto-play methods. *)
Inductive event : Type :=
| GenerateArray (size : Z) (guarantee_target : bool) (target_value : Z)
    (sample : list Z) (random_index : Z)
| StartSearch (target : Z)
| TargetChanged (target : Z)
| Next
| Previous
| Reset
| AutoPlay
| ToggleAutoPlay
| AutoPlayStep.

(** The object after one call. *)
Definition handle (app : BinarySearchApp) (e : event) : BinarySearchApp :=
  match e with
  | GenerateArray size guarantee_target target_value sample random_index =>
      fst (generate_array app size guarantee_target target_value
             sample random_index)
  | StartSearch target => searching_for app target
  | TargetChanged target => set_current_target app target
  | Next => fst (next_step app)
  | Previous => fst (previous_step app)
  | Reset => fst (reset_search app)
  | AutoPlay => fst (run_auto_play app)
  | ToggleAutoPlay => fst (toggle_auto_play app)
  | AutoPlayStep => fst (auto_play_step app)
  end.

(** The object after a sequence of calls on a new [BinarySearchApp]. *)
Definition after (es : list event) : BinarySearchApp :=
  fold_left handle es BinarySearchApp_init.

(** The object [initialize_search] builds before it displays. *)
Definition started (self : BinarySearchApp) (alg : BinarySearchAlgorithm)
    (target : Z) : BinarySearchApp :=
  {| current_array := current_array self;
     current_target := Some target;
     algorithm := Some alg; visualizer := visualizer self;
     current_step := 0; all_steps := steps alg;
     is_playing := is_playing self |}.

(** A draw of the size of the scenario array, out of order. *)
Definition scenario_sample : list Z := [41; 5; 29; 1; 50; 12; 34; 9; 23; 17].

(** The same session with auto-play switched on. *)
Definition playing_midway : BinarySearchApp :=
  fst (toggle_auto_play found_search_midway).

(** No trace yet and the cursor at 0, or a bound trace. *)
Definition steady (s : BinarySearchApp) : Prop :=
  (all_steps s = [] /\ current_step s = 0) \/ bound s.

(** * Properties *)

(** ** The loop, one iteration at a time *)

Lemma while_loop_exit (l r : Z) (self : BinarySearchAlgorithm) :
  l > r -> while_loop l r self = Ok (mkLoop l r self).
Proof.
  intros Hgt. rewrite while_loop_equation_1.
  destruct (Z_le_gt_dec l r) as [Hle | Hgt']; [lia | reflexivity].
Qed.

Lemma while_loop_iter (l r : Z) (self : BinarySearchAlgorithm) :
  l <= r -> while_loop l r self = loop_body l r self while_loop.
Proof.
  intros Hle. rewrite while_loop_equation_1.
  destruct (Z_le_gt_dec l r) as [Hle' | Hgt]; [| lia].
  unfold loop_body. cbn.
  destruct (py_index (array self) ((l + r) / 2)); reflexivity.
Qed.

(** The midpoint lies inside a non-empty interval. *)
Lemma mid_between (l r : Z) : l <= r -> l <= (l + r) / 2 <= r.
Proof.
  intros Hle. split.
  - apply Z.div_le_lower_bound; lia.
  - apply Z.lt_succ_r. apply Z.div_lt_upper_bound; lia.
Qed.

(** Induction along the iterations of the loop. *)
Lemma while_loop_induction
    (P : Z -> Z -> BinarySearchAlgorithm -> result loop_state -> Prop) :
  (forall l r self, l > r -> P l r self (Ok (mkLoop l r self))) ->
  (forall l r self, l <= r ->
     py_index (array self) ((l + r) / 2) = IndexError ->
     P l r self IndexError) ->
  (forall l r self v, l <= r ->
     py_index (array self) ((l + r) / 2) = Ok v ->
     v = target self ->
     let m := (l + r) / 2 in
     let self1 := set_found (count_comparison self) m in
     P l r self
       (Ok (mkLoop l r (append_step self1 (found_step self1 l r m v))))) ->
  (forall l r self v res, l <= r ->
     py_index (array self) ((l + r) / 2) = Ok v ->
     v < target self ->
     let m := (l + r) / 2 in
     let self1 := count_comparison self in
     P (m + 1) r (append_step self1 (less_step self1 l r m v)) res ->
     P l r self res) ->
  (forall l r self v res, l <= r ->
     py_index (array self) ((l + r) / 2) = Ok v ->
     v > target self ->
     let m := (l + r) / 2 in
     let self1 := count_comparison self in
     P l (m - 1) (append_step self1 (greater_step self1 l r m v)) res ->
     P l r self res) ->
  forall l r self, P l r self (while_loop l r self).
Proof.
  intros Hexit Herr Hfound Hless Hgreater l r.
  remember (span l r) as n eqn:Hn.
  revert l r Hn.
  induction n as [n IH] using lt_wf_ind.
  intros l r Hn self.
  destruct (Z_le_gt_dec l r) as [Hle | Hgt].
  - rewrite while_loop_iter by assumption. unfold loop_body.
    pose proof (mid_between Hle) as Hmid.
    destruct (py_index (array self) ((l + r) / 2)) as [v |] eqn:Hv; cbn.
    + destruct (Z.eqb_spec v (target self)) as [Heq | Hne].
      * apply Hfound; assumption.
      * destruct (Z.ltb_spec v (target self)) as [Hlt | Hge].
        -- apply Hless with (v := v); try assumption.
           apply (IH (span ((l + r) / 2 + 1) r)); [| reflexivity].
           subst n. unfold span. lia.
        -- apply Hgreater with (v := v); try assumption; [lia |].
           apply (IH (span l ((l + r) / 2 - 1))); [| reflexivity].
           subst n. unfold span. lia.
    + apply Herr; assumption.
  - rewrite while_loop_exit by assumption. apply Hexit. assumption.
Qed.

(** ** Subscripting *)

Lemma py_index_nonneg {A : Type} (l : list A) (i : Z) :
  0 <= i < len l ->
  exists x, py_index l i = Ok x /\ nth_error l (Z.to_nat i) = Some x.
Proof.
  intros [H0 Hlt]. unfold py_index.
  destruct (Z.leb_spec 0 i); [| lia].
  destruct (Z.ltb_spec i (len l)); [| lia]. cbn.
  destruct (nth_error l (Z.to_nat i)) as [x |] eqn:Hx.
  - exists x. split; reflexivity.
  - apply nth_error_None in Hx. unfold len in Hlt. lia.
Qed.

Lemma py_index_nonneg_inv {A : Type} (l : list A) (i : Z) (x : A) :
  0 <= i -> py_index l i = Ok x ->
  i < len l /\ nth_error l (Z.to_nat i) = Some x.
Proof.
  intros H0. unfold py_index.
  destruct (Z.leb_spec 0 i); [| lia].
  destruct (Z.ltb_spec i (len l)); cbn.
  - destruct (nth_error l (Z.to_nat i)); [| discriminate].
    intros [= ->]. split; [assumption | reflexivity].
  - destruct (Z.ltb_spec i 0); [lia |].
    rewrite andb_false_r. discriminate.
Qed.

(** ** Sorted arrays *)

(** In an ascending list, positions in order hold values in order. *)
Lemma sorted_nth_error (a : list Z) :
  Sorted Z.le a ->
  forall (i j : nat) (x y : Z), (i <= j)%nat ->
    nth_error a i = Some x -> nth_error a j = Some y -> x <= y.
Proof.
  intros Hs. apply Sorted_StronglySorted in Hs; [| exact Z.le_trans].
  induction Hs as [| h t Hst IH Hall]; intros i j x y Hij Hi Hj.
  - destruct i; discriminate.
  - destruct i as [| i]; destruct j as [| j]; cbn in Hi, Hj.
    + injection Hi as <-. injection Hj as <-. lia.
    + injection Hi as <-. apply nth_error_In in Hj.
      rewrite Forall_forall in Hall. apply Hall. assumption.
    + lia.
    + apply (IH i j); [lia | assumption | assumption].
Qed.

Lemma sorted_py_index (a : list Z) (i j x y : Z) :
  Sorted Z.le a -> 0 <= i -> i <= j ->
  py_index a i = Ok x -> py_index a j = Ok y -> x <= y.
Proof.
  intros Hs H0 Hij Hi Hj.
  apply py_index_nonneg_inv in Hi; [| lia].
  apply py_index_nonneg_inv in Hj; [| lia].
  apply (sorted_nth_error Hs) with (i := Z.to_nat i) (j := Z.to_nat j);
    [lia | apply Hi | apply Hj].
Qed.

(** A value of the list sits at some non-negative index. *)
Lemma In_py_index (a : list Z) (t : Z) :
  In t a -> exists i, 0 <= i <= len a - 1 /\ py_index a i = Ok t.
Proof.
  intros Hin. apply In_nth_error in Hin. destruct Hin as [n Hn].
  assert (n < List.length a)%nat as Hlt
    by (apply nth_error_Some; congruence).
  exists (Z.of_nat n). unfold len. split; [lia |].
  destruct (@py_index_nonneg _ a (Z.of_nat n)) as [x [Hx Hnth]];
    [unfold len; lia |].
  rewrite Nat2Z.id in Hnth. congruence.
Qed.

Lemma py_index_In (a : list Z) (i t : Z) :
  0 <= i -> py_index a i = Ok t -> In t a.
Proof.
  intros H0 Hi. apply py_index_nonneg_inv in Hi; [| assumption].
  destruct Hi as [_ Hi]. apply nth_error_In in Hi. assumption.
Qed.

(** ** What the loop records *)

Lemma len_cons {A : Type} (x : A) (l : list A) : len (x :: l) = len l + 1.
Proof. unfold len. cbn [List.length]. lia. Qed.

Lemma len_app {A : Type} (l1 l2 : list A) :
  len (l1 ++ l2) = len l1 + len l2.
Proof. unfold len. rewrite length_app. lia. Qed.

(** One more searching iteration in front of a run of the loop. *)
Lemma loop_post_iteration (self self1 : BinarySearchAlgorithm) (d : step)
    (st : loop_state) (new : list step) :
  self1 = append_step (count_comparison self) d ->
  compared (array self) (target self) d -> status d = Searching ->
  loop_post self1 st new -> loop_post self st (d :: new).
Proof.
  intros -> Hd Hsearch [Ha Ht Hs Hc Hcmp Hout]. cbn in *.
  constructor.
  - exact Ha.
  - exact Ht.
  - rewrite Hs, <- app_assoc. reflexivity.
  - rewrite Hc, len_cons. lia.
  - constructor; assumption.
  - destruct Hout
      as [[Hf [pre [e [-> [Hpre [He Hm]]]]]] | [Hf [Hi [Hall Hlr]]]].
    + left. split; [exact Hf |]. exists (d :: pre), e.
      repeat split; try assumption. constructor; assumption.
    + right. repeat split; try assumption. constructor; assumption.
Qed.

(** The steps written by the three branches are what [compared] says. *)
Lemma compared_branch (self : BinarySearchAlgorithm) (l r v : Z) (d : step) :
  0 <= l -> l <= r -> r <= len (array self) - 1 ->
  py_index (array self) ((l + r) / 2) = Ok v ->
  left d = Some l -> right d = Some r -> mid d = Some ((l + r) / 2) ->
  (comparison d = Some Equal /\ status d = Found /\ v = target self) \/
  (comparison d = Some Less /\ status d = Searching /\ v < target self) \/
  (comparison d = Some Greater /\ status d = Searching /\ v > target self) ->
  compared (array self) (target self) d.
Proof.
  intros H0 Hle Hr Hv Hl Hrt Hm Hc.
  pose proof (mid_between Hle) as Hmid.
  exists l, r, ((l + r) / 2), v.
  repeat split; try assumption; lia.
Qed.

(** Started inside the array, the loop returns, and [loop_post] describes
    where it stops. *)
Lemma while_loop_spec (l r : Z) (self : BinarySearchAlgorithm) :
  0 <= l -> r <= len (array self) - 1 ->
  exists st new, while_loop l r self = Ok st /\ loop_post self st new.
Proof.
  pattern l, r, self, (while_loop l r self).
  apply while_loop_induction; clear l r self.
  - intros l r self Hgt _ _. exists (mkLoop l r self), [].
    split; [reflexivity |]. constructor; cbn.
    + reflexivity.
    + reflexivity.
    + rewrite app_nil_r. reflexivity.
    + unfold len. cbn. lia.
    + constructor.
    + right. repeat split; [constructor | assumption].
  - intros l r self Hle Herr H0 Hr. exfalso.
    pose proof (mid_between Hle) as Hmid.
    destruct (@py_index_nonneg _ (array self) ((l + r) / 2)) as [x [Hx _]];
      [lia | congruence].
  - intros l r self v Hle Hv Heq m self1 H0 Hr.
    eexists; exists [found_step self1 l r m v].
    split; [reflexivity |]. constructor; cbn.
    + reflexivity.
    + reflexivity.
    + reflexivity.
    + unfold len. cbn. lia.
    + constructor; [| constructor].
      apply compared_branch with (l := l) (r := r) (v := v);
        try assumption; try reflexivity.
      left. repeat split. assumption.
    + left. split; [reflexivity |].
      exists [], (found_step self1 l r m v).
      repeat split. constructor.
  - intros l r self v res Hle Hv Hlt m self1 IH H0 Hr.
    pose proof (mid_between Hle) as Hmid. fold m in Hmid.
    destruct IH as [st [new [Hres Hpost]]]; [lia | cbn; lia |].
    exists st, (less_step self1 l r m v :: new). split; [exact Hres |].
    eapply loop_post_iteration; [reflexivity | | reflexivity | exact Hpost].
    apply compared_branch with (l := l) (r := r) (v := v);
      try assumption; try reflexivity.
    right. left. repeat split. assumption.
  - intros l r self v res Hle Hv Hgt m self1 IH H0 Hr.
    pose proof (mid_between Hle) as Hmid. fold m in Hmid.
    destruct IH as [st [new [Hres Hpost]]]; [lia | cbn; lia |].
    exists st, (greater_step self1 l r m v :: new). split; [exact Hres |].
    eapply loop_post_iteration; [reflexivity | | reflexivity | exact Hpost].
    apply compared_branch with (l := l) (r := r) (v := v);
      try assumption; try reflexivity.
    right. right. repeat split. assumption.
Qed.

(** Either half of an interval of fewer than [2^k] positions has fewer
    than [2^(k-1)]. *)
Lemma halves (l r k : Z) :
  l <= r -> 0 <= k -> r - l + 1 < 2 ^ k ->
  0 <= k - 1 /\
  r - ((l + r) / 2 + 1) + 1 < 2 ^ (k - 1) /\
  ((l + r) / 2 - 1) - l + 1 < 2 ^ (k - 1).
Proof.
  intros Hle Hk Hpow.
  assert (k <> 0) as Hk0 by (intros ->; cbn in Hpow; lia).
  replace k with (Z.succ (k - 1)) in Hpow by lia.
  rewrite Z.pow_succ_r in Hpow by lia.
  pose proof (Z.mod_pos_bound (l + r) 2).
  pose proof (Z.div_mod (l + r) 2). lia.
Qed.

(** Each iteration at least halves the interval: when fewer than [2^k]
    positions are left, the loop appends at most [k] steps. *)
Lemma while_loop_count (l r : Z) (self : BinarySearchAlgorithm) :
  forall k st, 0 <= k -> r - l + 1 < 2 ^ k ->
    while_loop l r self = Ok st ->
    len (steps (ls_self st)) <= len (steps self) + k.
Proof.
  pattern l, r, self, (while_loop l r self).
  apply while_loop_induction; clear l r self.
  - intros l r self _ k st Hk _ [= <-]. cbn. lia.
  - intros l r self _ _ k st _ _ [=].
  - intros l r self v Hle _ _ m self1 k st Hk Hpow [= <-]. cbn.
    rewrite len_app. unfold len at 2. cbn.
    destruct (halves Hle Hk Hpow) as [Hk1 _]. lia.
  - intros l r self v res Hle _ _ m self1 IH k st Hk Hpow Hres.
    destruct (halves Hle Hk Hpow) as [Hk1 [Hright _]].
    specialize (IH (k - 1) st Hk1 Hright Hres).
    cbn in IH. rewrite len_app in IH. unfold len at 3 in IH. cbn in IH. lia.
  - intros l r self v res Hle _ _ m self1 IH k st Hk Hpow Hres.
    destruct (halves Hle Hk Hpow) as [Hk1 [_ Hleft]].
    specialize (IH (k - 1) st Hk1 Hleft Hres).
    cbn in IH. rewrite len_app in IH. unfold len at 3 in IH. cbn in IH. lia.
Qed.

(** On an ascending array, a target that sits between the bounds is
    found. *)
Lemma while_loop_finds (l r : Z) (self : BinarySearchAlgorithm) :
  Sorted Z.le (array self) -> 0 <= l ->
  (exists i, l <= i <= r /\ py_index (array self) i = Ok (target self)) ->
  forall st, while_loop l r self = Ok st -> found (ls_self st) = true.
Proof.
  pattern l, r, self, (while_loop l r self).
  apply while_loop_induction; clear l r self.
  - intros l r self Hgt _ _ [i [Hi _]]. lia.
  - intros l r self _ _ _ _ _ st [=].
  - intros l r self v _ _ _ m self1 _ _ _ st [= <-]. reflexivity.
  - intros l r self v res Hle Hv Hlt m self1 IH Hs H0 [i [Hi Hti]] st Hres.
    pose proof (mid_between Hle) as Hmid. fold m in Hmid, Hv.
    apply IH; try assumption; [lia |].
    exists i. split; [| assumption].
    destruct (Z_le_gt_dec i m) as [Him | Him]; [| lia].
    assert (0 <= i) as Hi0 by lia.
    pose proof (sorted_py_index Hs Hi0 Him Hti Hv). lia.
  - intros l r self v res Hle Hv Hgt m self1 IH Hs H0 [i [Hi Hti]] st Hres.
    pose proof (mid_between Hle) as Hmid. fold m in Hmid, Hv.
    apply IH; try assumption.
    exists i. split; [| assumption].
    destruct (Z_le_gt_dec m i) as [Him | Him]; [| lia].
    assert (0 <= m) as Hm0 by lia.
    pose proof (sorted_py_index Hs Hm0 Him Hv Hti). lia.
Qed.

(** ** [execute] on a fresh object *)

Lemma execute_spec (arr : list Z) (t : Z) :
  exists st new,
    while_loop 0 (len arr - 1) (entered arr t) = Ok st /\
    loop_post (entered arr t) st new /\
    execute (BinarySearchAlgorithm_init arr t) = Ok (finished st).
Proof.
  destruct (@while_loop_spec 0 (len arr - 1) (entered arr t))
    as [st [new [Hres Hpost]]]; [lia | cbn; lia |].
  exists st, new. split; [assumption |]. split; [assumption |].
  unfold execute. cbn [array BinarySearchAlgorithm_init].
  fold (entered arr t). rewrite Hres. cbn. unfold finished.
  destruct (found (ls_self st)); reflexivity.
Qed.

Lemma entered_steps (arr : list Z) (t : Z) :
  steps (entered arr t)
  = [initial_step (BinarySearchAlgorithm_init arr t) 0 (len arr - 1)].
Proof. reflexivity. Qed.

Lemma filter_terminal_searching (l : list step) :
  Forall is_searching l -> filter is_terminal l = [].
Proof.
  induction 1 as [| d l Hd _ IH]; [reflexivity |].
  cbn. unfold is_terminal. rewrite Hd. assumption.
Qed.

Lemma filter_has_mid_compared (arr : list Z) (t : Z) (l : list step) :
  Forall (compared arr t) l -> filter has_mid l = l.
Proof.
  induction 1 as [| d l Hd _ IH]; [reflexivity |].
  destruct Hd as [a [b [m [v [_ [_ [Hm _]]]]]]].
  cbn. unfold has_mid. rewrite Hm. cbn. f_equal. assumption.
Qed.

(** A step written by an iteration is terminal exactly when it is tagged
    ['equal']. *)
Lemma compared_found (arr : list Z) (t : Z) (d : step) :
  compared arr t d -> status d = Found ->
  comparison d = Some Equal /\
  exists m, mid d = Some m /\ 0 <= m <= len arr - 1 /\ py_index arr m = Ok t.
Proof.
  intros [l [r [m [v [_ [_ [Hm [_ [H0 [Hlm [Hmr [Hr [Hv Hc]]]]]]]]]]]]] Hst.
  destruct Hc as [[Hc [_ ->]] | [[_ [Hs _]] | [_ [Hs _]]]]; try congruence.
  split; [assumption |]. exists m. repeat split; try assumption; lia.
Qed.

Lemma compared_equal (arr : list Z) (t : Z) (d : step) :
  compared arr t d -> comparison d = Some Equal -> In t arr.
Proof.
  intros [l [r [m [v [_ [_ [Hm [_ [H0 [Hlm [Hmr [Hr [Hv Hc]]]]]]]]]]]]] Heq.
  destruct Hc as [[_ [_ ->]] | [[Hc _] | [Hc _]]]; try congruence.
  apply py_index_In with (i := m); [lia | assumption].
Qed.

(** Without sortedness: a target that is not in the array is never matched. *)
Lemma execute_absent (A : list Z) (T : Z) :
  ~ In T A ->
  exists alg pre d,
    execute (BinarySearchAlgorithm_init A T) = Ok alg /\
    steps alg = (pre ++ [d])%list /\
    status d = NotFound /\
    Forall (fun s => comparison s <> Some Equal) (steps alg).
Proof.
  intros Hnot.
  destruct (execute_spec A T) as [st [new [_ [Hpost Hex]]]].
  destruct Hpost as [Ha Ht Hs Hc Hcmp Hout]. cbn in Ha, Ht, Hcmp.
  assert (Forall (fun s => comparison s <> Some Equal) new) as Hne.
  { rewrite Forall_forall in *. intros d Hd Heq.
    apply Hnot. apply (compared_equal (Hcmp d Hd) Heq). }
  destruct Hout as [[_ [pre [d [-> [_ [Hd _]]]]]] | [Hf _]].
  - exfalso. rewrite Forall_forall in Hcmp, Hne.
    assert (In d (pre ++ [d])) as Hin
      by (apply in_or_app; right; left; reflexivity).
    destruct (compared_found (Hcmp d Hin) Hd) as [Heq _].
    apply (Hne d Hin Heq).
  - cbn in Hf. unfold finished in Hex. rewrite Hf in Hex.
    eexists; exists (steps (ls_self st)); eexists.
    split; [exact Hex |]. cbn. repeat split.
    rewrite Hs, entered_steps. apply Forall_app. split.
    + apply Forall_app. split; [| assumption].
      constructor; [discriminate | constructor].
    + constructor; [discriminate | constructor].
Qed.

(** ** The worked scenarios *)

Example scenario_found :
  exists alg,
    execute (BinarySearchAlgorithm_init scenario_array 23) = Ok alg /\
    map outline (steps alg) =
      [ (Some 0, Some 9, None, None, Searching);
        (Some 0, Some 9, Some 4, Some Less, Searching);
        (Some 5, Some 9, Some 7, Some Greater, Searching);
        (Some 5, Some 6, Some 5, Some Equal, Found) ] /\
    map message (steps alg) =
      [ "Starting search for 23 in array of size 10";
        "Step 1: Array[4] = 17 < 23. Searching right half.";
        "Step 2: Array[7] = 34 > 23. Searching left half.";
        "Step 3: Found! Array[5] = 23 equals target 23" ] /\
    comparisons alg = 3 /\ found alg = true /\ found_index alg = 5.
Proof. eexists. split; [vm_compute; reflexivity |]. repeat split. Qed.

Example scenario_absent :
  exists alg,
    execute (BinarySearchAlgorithm_init [2; 4; 6] 5) = Ok alg /\
    map outline (steps alg) =
      [ (Some 0, Some 2, None, None, Searching);
        (Some 0, Some 2, Some 1, Some Less, Searching);
        (Some 2, Some 2, Some 2, Some Greater, Searching);
        (Some 2, Some 1, None, None, NotFound) ] /\
    comparisons alg = 2 /\ found alg = false /\ found_index alg = -1.
Proof. eexists. split; [vm_compute; reflexivity |]. repeat split. Qed.

(** An unsorted array is searched all the same; the value 7 at position 0
    is missed. *)
Example scenario_unsorted :
  exists alg,
    execute (BinarySearchAlgorithm_init [7; 3; 5] 7) = Ok alg /\
    map outline (steps alg) =
      [ (Some 0, Some 2, None, None, Searching);
        (Some 0, Some 2, Some 1, Some Less, Searching);
        (Some 2, Some 2, Some 2, Some Less, Searching);
        (Some 3, Some 2, None, None, NotFound) ] /\
    comparisons alg = 2 /\ found alg = false.
Proof. eexists. split; [vm_compute; reflexivity |]. repeat split. Qed.

(** The colours at the third step of the first scenario: positions 0-4 are
    eliminated, position 7 is the midpoint, the rest is still in range. *)
Example scenario_colours :
  map (bar_color (less_step (BinarySearchAlgorithm_init scenario_array 23)
                    5 9 7 34))
      (range 10)
  = [ Color.eliminated; Color.eliminated; Color.eliminated;
      Color.eliminated; Color.eliminated; Color.default; Color.default;
      Color.current; Color.default; Color.default ].
Proof. reflexivity. Qed.

(** ** The search tracer *)

(** C1.  On an array sorted in ascending order that contains the target,
    the trace of [execute] ends in a step with status ['found'] and
    comparison ['equal'] whose [mid] is a position of the array holding the
    target, and [found_index] is that position. *)
Theorem execute_finds_present (A : list Z) (T : Z) :
  Sorted Z.le A -> In T A ->
  exists alg pre d m,
    execute (BinarySearchAlgorithm_init A T) = Ok alg /\
    steps alg = (pre ++ [d])%list /\
    status d = Found /\ comparison d = Some Equal /\ mid d = Some m /\
    0 <= m <= len A - 1 /\ py_index A m = Ok T /\
    found alg = true /\ found_index alg = m.
Proof.
  intros Hsorted Hin.
  destruct (execute_spec A T) as [st [new [Hres [Hpost Hex]]]].
  assert (found (ls_self st) = true) as Hfound.
  { apply (@while_loop_finds 0 (len A - 1) (entered A T));
      [exact Hsorted | lia | | exact Hres].
    destruct (In_py_index A T Hin) as [i [Hi Hti]].
    exists i. split; assumption. }
  destruct Hpost as [Ha Ht Hs Hc Hcmp Hout]. cbn in Ha, Ht, Hcmp.
  unfold finished in Hex. rewrite Hfound in Hex.
  destruct Hout as [[_ [pre [d [-> [_ [Hd Hm]]]]]] | [Hf _]].
  - rewrite Forall_forall in Hcmp.
    assert (In d (pre ++ [d])) as Hd_in
      by (apply in_or_app; right; left; reflexivity).
    destruct (compared_found (Hcmp d Hd_in) Hd) as [Heq [m [Hm' [Hb Hv]]]].
    exists (ls_self st), (steps (entered A T) ++ pre)%list, d, m.
    split; [exact Hex |].
    split; [rewrite Hs, app_assoc; reflexivity |].
    repeat split; try assumption; try lia. congruence.
  - cbn in Hf. congruence.
Qed.

(** The first scenario is an instance: the array is ascending and holds 23. *)
Lemma execute_finds_present_witness :
  Sorted Z.le scenario_array /\ In 23 scenario_array /\
  exists alg pre d m,
    execute (BinarySearchAlgorithm_init scenario_array 23) = Ok alg /\
    steps alg = (pre ++ [d])%list /\
    status d = Found /\ comparison d = Some Equal /\ mid d = Some m /\
    0 <= m <= len scenario_array - 1 /\
    py_index scenario_array m = Ok 23 /\
    found alg = true /\ found_index alg = m.
Proof.
  assert (Sorted Z.le scenario_array) as Hs
    by (unfold scenario_array; repeat constructor; lia).
  assert (In 23 scenario_array) as Hi by (cbn; tauto).
  split; [exact Hs |]. split; [exact Hi |].
  exact (@execute_finds_present scenario_array 23 Hs Hi).
Defined.

(** C2, as the code has it.  On a sorted array the trace of [execute],
    the initial step and the terminal step included, has at most
    [ceil(log2(len + 1)) + 2] steps, and at most [ceil(log2(len + 1)) + 1]
    when the target is found. *)
Theorem execute_step_count (A : list Z) (T : Z) :
  Sorted Z.le A ->
  exists alg,
    execute (BinarySearchAlgorithm_init A T) = Ok alg /\
    len (steps alg) <= Z.log2_up (len A + 1) + 2 /\
    (found alg = true -> len (steps alg) <= Z.log2_up (len A + 1) + 1).
Proof.
  intros _.
  destruct (execute_spec A T) as [st [new [Hres [Hpost Hex]]]].
  exists (finished st). split; [exact Hex |].
  set (k := Z.log2_up (len A + 1)).
  assert (0 <= k) as Hk by apply Z.log2_up_nonneg.
  assert (len A < 2 ^ k) as Hpow.
  { assert (0 <= len A) as Hn by (unfold len; lia).
    destruct (Z.eq_dec (len A) 0) as [H0 | H0].
    - subst k. rewrite H0. cbn. lia.
    - pose proof (Z.log2_up_spec (len A + 1)) as Hspec.
      fold k in Hspec. lia. }
  pose proof (@while_loop_count 0 (len A - 1) (entered A T) k st Hk) as Hcount.
  rewrite entered_steps in Hcount. unfold len at 4 in Hcount.
  cbn [List.length] in Hcount.
  assert (len (steps (ls_self st)) <= 1 + k) as Hle
    by (apply Hcount; [lia | exact Hres]).
  unfold finished. destruct (found (ls_self st)) eqn:Hf.
  - split; [lia |]. intros _. lia.
  - cbn. rewrite Hf, len_app. unfold len at 2. cbn [List.length].
    split; [lia |]. discriminate.
Qed.

(** The second scenario is an instance. *)
Lemma execute_step_count_witness :
  Sorted Z.le [2; 4; 6] /\
  exists alg,
    execute (BinarySearchAlgorithm_init [2; 4; 6] 5) = Ok alg /\
    len (steps alg) <= Z.log2_up (len [2; 4; 6] + 1) + 2 /\
    (found alg = true ->
     len (steps alg) <= Z.log2_up (len [2; 4; 6] + 1) + 1).
Proof.
  assert (Sorted Z.le [2; 4; 6]) as Hs by (repeat constructor; lia).
  split; [exact Hs |].
  exact (@execute_step_count [2; 4; 6] 5 Hs).
Defined.

(** C2 as stated fails: searching 5 in the sorted array [2, 4, 6] records
    four steps (initial, two comparisons, not found), one more than
    [ceil(log2(3 + 1)) + 1 = 3]. *)
Lemma execute_step_count_exceeds_claim :
  Sorted Z.le [2; 4; 6] /\
  exists alg,
    execute (BinarySearchAlgorithm_init [2; 4; 6] 5) = Ok alg /\
    len (steps alg) = 4 /\
    Z.log2_up (len [2; 4; 6] + 1) + 1 = 3 /\
    ~ len (steps alg) <= Z.log2_up (len [2; 4; 6] + 1) + 1.
Proof.
  split; [repeat constructor; lia |].
  eexists. split; [vm_compute; reflexivity |].
  split; [reflexivity |]. split; [reflexivity |].
  vm_compute. intros H. apply H. reflexivity.
Qed.

(** C3.  For every array and target, sorted or not, the trace of [execute]
    is a first step with status ['searching'] and no [mid], then steps with
    status ['searching'], then a last step with status ['found'] or
    ['not_found']; exactly one step of the trace has a terminal status. *)
Theorem execute_trace_shape (A : list Z) (T : Z) :
  exists alg first mids last,
    execute (BinarySearchAlgorithm_init A T) = Ok alg /\
    steps alg = (first :: mids ++ [last])%list /\
    status first = Searching /\ mid first = None /\
    Forall (fun d => status d = Searching) mids /\
    (status last = Found \/ status last = NotFound) /\
    List.length (filter is_terminal (steps alg)) = 1%nat.
Proof.
  destruct (execute_spec A T) as [st [new [_ [Hpost Hex]]]].
  destruct Hpost as [_ _ Hs _ _ Hout]. rewrite entered_steps in Hs.
  set (first := initial_step (BinarySearchAlgorithm_init A T) 0 (len A - 1))
    in Hs.
  destruct Hout as [[Hf [pre [d [-> [Hpre [Hd _]]]]]] | [Hf [_ [Hall _]]]].
  - exists (finished st), first, pre, d.
    unfold finished in *. rewrite Hf in *.
    split; [exact Hex |]. rewrite Hs. cbn [app].
    repeat split; try assumption; try (left; assumption).
    cbn [filter is_terminal first initial_step status].
    rewrite filter_app, (filter_terminal_searching Hpre).
    cbn [app filter]. unfold is_terminal. rewrite Hd. reflexivity.
  - cbn in Hf. exists (finished st), first, new,
      (not_found_step (ls_self st) (ls_left st) (ls_right st)).
    unfold finished in *. rewrite Hf in *.
    split; [exact Hex |]. cbn [steps append_step]. rewrite Hs. cbn [app].
    repeat split; try assumption; try (right; reflexivity).
    cbn [filter is_terminal first initial_step status].
    rewrite filter_app, (filter_terminal_searching Hall).
    reflexivity.
Qed.

(** C4.  On a sorted array that does not contain the target, the trace of
    [execute] ends in a step with status ['not_found'] and no step of the
    trace has comparison ['equal']. *)
Theorem execute_absent_not_found (A : list Z) (T : Z) :
  Sorted Z.le A -> ~ In T A ->
  exists alg pre d,
    execute (BinarySearchAlgorithm_init A T) = Ok alg /\
    steps alg = (pre ++ [d])%list /\
    status d = NotFound /\
    Forall (fun s => comparison s <> Some Equal) (steps alg).
Proof.
  intros _ Hnot. apply execute_absent. exact Hnot.
Qed.

(** The second scenario is an instance: 5 is not in the ascending array
    [2, 4, 6]. *)
Lemma execute_absent_not_found_witness :
  Sorted Z.le [2; 4; 6] /\ ~ In 5 [2; 4; 6] /\
  exists alg pre d,
    execute (BinarySearchAlgorithm_init [2; 4; 6] 5) = Ok alg /\
    steps alg = (pre ++ [d])%list /\
    status d = NotFound /\
    Forall (fun s => comparison s <> Some Equal) (steps alg).
Proof.
  assert (Sorted Z.le [2; 4; 6]) as Hs by (repeat constructor; lia).
  assert (~ In 5 [2; 4; 6]) as Hn by (cbn; lia).
  split; [exact Hs |]. split; [exact Hn |].
  exact (@execute_absent_not_found [2; 4; 6] 5 Hs Hn).
Defined.

(** C9.  [execute] returns a trace for every array and target, the empty
    array and unsorted arrays included, and that trace is the only one the
    array and the target can give; for the empty array it is the initial
    step followed at once by the ['not_found'] step, with no comparison
    counted. *)
Theorem execute_terminates :
  (forall (A : list Z) (T : Z),
     exists! alg, execute (BinarySearchAlgorithm_init A T) = Ok alg) /\
  (forall T : Z,
     exists alg,
       execute (BinarySearchAlgorithm_init [] T) = Ok alg /\
       steps alg =
         [ {| left := Some 0; right := Some (-1); mid := None;
              comparison := None;
              message := "Starting search for " ++ str T
                         ++ " in array of size 0";
              status := Searching |};
           {| left := Some 0; right := Some (-1); mid := None;
              comparison := None;
              message := "Search complete: " ++ str T
                         ++ " not found in array after 0 comparisons";
              status := NotFound |} ] /\
       comparisons alg = 0 /\ found alg = false /\ found_index alg = -1).
Proof.
  split.
  - intros A T. destruct (execute_spec A T) as [st [_ [_ [_ Hex]]]].
    exists (finished st). split; [exact Hex |].
    intros alg' Hex'. congruence.
  - intros T. unfold execute. cbn [array BinarySearchAlgorithm_init len
      List.length Z.of_nat Z.sub Z.opp Z.add Z.pos_sub].
    rewrite while_loop_exit by lia.
    eexists. split; [reflexivity |]. cbn. repeat split.
Qed.

Lemma execute_bounds (A : list Z) (T : Z) :
  exists alg,
    execute (BinarySearchAlgorithm_init A T) = Ok alg /\
    Forall (fun d => has_mid d = false \/ compared A T d) (steps alg) /\
    comparisons alg = len (filter has_mid (steps alg)).
Proof.
  destruct (execute_spec A T) as [st [new [_ [Hpost Hex]]]].
  destruct Hpost as [_ _ Hs Hc Hcmp Hout]. cbn in Hcmp, Hc.
  rewrite entered_steps in Hs.
  assert (Forall (fun d => has_mid d = false \/ compared A T d) new) as Hnew.
  { eapply Forall_impl; [| exact Hcmp]. intros d Hd. right. exact Hd. }
  exists (finished st). split; [exact Hex |].
  unfold finished. destruct (found (ls_self st)).
  - rewrite Hs. split.
    + constructor; [left; reflexivity | exact Hnew].
    + cbn [app filter has_mid initial_step mid is_not_None].
      rewrite (filter_has_mid_compared Hcmp). lia.
  - cbn [steps append_step comparisons]. rewrite Hs. split.
    + apply Forall_app. split.
      * constructor; [left; reflexivity | exact Hnew].
      * constructor; [left; reflexivity | constructor].
    + rewrite filter_app.
      cbn [app filter has_mid initial_step not_found_step mid is_not_None].
      rewrite (filter_has_mid_compared Hcmp), app_nil_r. lia.
Qed.

(** C10.  For every array and target, sorted or not, [execute] returns
    without an [IndexError]; every recorded step with [mid] set holds
    bounds with [0 <= left <= mid <= right <= len - 1] and
    [mid = (left + right) // 2], so the position read is one of the array;
    and there are as many such steps as comparisons counted, one per
    read of [array[mid]]. *)
Theorem execute_mid_in_bounds (A : list Z) (T : Z) :
  exists alg,
    execute (BinarySearchAlgorithm_init A T) = Ok alg /\
    Forall (fun d => forall m, mid d = Some m ->
              exists l r v,
                left d = Some l /\ right d = Some r /\
                0 <= l /\ l <= m /\ m <= r /\ r <= len A - 1 /\
                m = (l + r) / 2 /\ py_index A m = Ok v /\
                nth_error A (Z.to_nat m) = Some v)
           (steps alg) /\
    comparisons alg = len (filter has_mid (steps alg)).
Proof.
  destruct (execute_bounds A T) as [alg [Hex [Hall Hcount]]].
  exists alg. split; [exact Hex |]. split; [| exact Hcount].
  eapply Forall_impl; [| exact Hall].
  intros d [Hnone | Hcmp] m Hm.
  - unfold has_mid in Hnone. rewrite Hm in Hnone. discriminate.
  - destruct Hcmp
      as [l [r [m' [v [Hl [Hr [Hm' [Hdiv [H0 [Hlm [Hmr [Hrn [Hv _]]]]]]]]]]]]].
    assert (m' = m) as -> by congruence.
    exists l, r, v. repeat split; try assumption.
    apply py_index_nonneg_inv in Hv; [apply Hv | lia].
Qed.

(** ** The bar colours *)

Lemma status_eqb_eq (a b : status_t) : status_eqb a b = true <-> a = b.
Proof. destruct a, b; cbn; split; congruence. Qed.

Lemma eq_opt_eq (i : Z) (v : option Z) : eq_opt i v = true <-> v = Some i.
Proof.
  destruct v as [z |]; cbn.
  - rewrite Z.eqb_eq. split; congruence.
  - split; discriminate.
Qed.

Lemma found_cond_reflect (d : step) (i : Z) :
  status_eqb (status d) Found && eq_opt i (mid d) = true <-> found_cond d i.
Proof.
  unfold found_cond. rewrite andb_true_iff, status_eqb_eq, eq_opt_eq.
  reflexivity.
Qed.

Lemma mid_cond_reflect (d : step) (i : Z) :
  is_not_None (mid d) && eq_opt i (mid d) = true <-> mid_cond d i.
Proof.
  unfold mid_cond. rewrite andb_true_iff, eq_opt_eq.
  destruct (mid d); cbn; intuition congruence.
Qed.

(** C8.  The colour of position [i] is ['found'] iff the step has status
    ['found'] and [i] is its [mid]; otherwise ['current'] iff [mid] is set
    and is [i]; otherwise ['eliminated'] iff [left] and [right] are set and
    [i] lies outside them; otherwise ['default'].  The chart holds that
    colour at each position of the array. *)
Theorem bar_color_priority (d : step) (i : Z) :
  (bar_color d i = Color.found <-> found_cond d i) /\
  (bar_color d i = Color.current <-> ~ found_cond d i /\ mid_cond d i) /\
  (bar_color d i = Color.eliminated <->
     ~ found_cond d i /\ ~ mid_cond d i /\ eliminated_cond d i) /\
  (bar_color d i = Color.default <->
     ~ found_cond d i /\ ~ mid_cond d i /\ ~ eliminated_cond d i) /\
  (forall (vis : BinarySearchVisualizer) (arr : list Z),
     0 <= i < len arr ->
     py_index (bar_colors (create_bar_chart vis arr d)) i
     = Ok (colors vis (bar_color d i))).
Proof.
  pose proof (found_cond_reflect d i) as Hf.
  pose proof (mid_cond_reflect d i) as Hm.
  assert (forall l r, left d = Some l -> right d = Some r ->
            ((i <? l) || (i >? r) = true <-> eliminated_cond d i)) as He.
  { intros l r Hl Hr. unfold eliminated_cond.
    rewrite orb_true_iff, Z.ltb_lt, Z.gtb_ltb, Z.ltb_lt. split.
    - intros H. exists l, r. repeat split; try assumption. lia.
    - intros [l' [r' [Hl' [Hr' H]]]].
      assert (l' = l) by congruence. assert (r' = r) by congruence. lia. }
  assert (left d = None \/ right d = None -> ~ eliminated_cond d i) as Hn.
  { intros Hnone [l [r [Hl [Hr _]]]]. destruct Hnone; congruence. }
  split; [| split; [| split; [| split]]].
  1-4: unfold bar_color;
    destruct (status_eqb (status d) Found && eq_opt i (mid d));
    [| destruct (is_not_None (mid d) && eq_opt i (mid d));
       [| destruct (left d) as [l |] eqn:Hl;
          [ destruct (right d) as [r |] eqn:Hr;
            [ specialize (He l r eq_refl eq_refl);
              destruct ((i <? l) || (i >? r)) |] |] ] ];
    (split; [intros Heq | intros Hc]);
    try discriminate;
    try solve [intuition (auto; congruence)].
  intros vis arr Hi. unfold create_bar_chart, range. cbn [bar_colors].
  destruct (@py_index_nonneg _
              (map (fun j => colors vis (bar_color d j))
                 (map Z.of_nat (seq 0 (Z.to_nat (len arr))))) i)
    as [x [Hx Hnth]].
  { unfold len. rewrite !length_map, length_seq. unfold len in Hi. lia. }
  rewrite Hx. f_equal.
  rewrite map_map, nth_error_map in Hnth.
  rewrite nth_error_seq in Hnth.
  destruct (Nat.ltb_spec (Z.to_nat i) (Z.to_nat (len arr))); [| lia].
  cbn in Hnth. injection Hnth as <-. rewrite Z2Nat.id by lia. reflexivity.
Qed.

(** ** The step navigator *)

(** [bound] on a concrete object: both parts are decided by evaluation. *)
Ltac bound_by_computation :=
  split; [vm_compute; discriminate | vm_compute; split; discriminate].

Lemma range_bounds (n i : Z) : In i (range n) -> 0 <= i < n.
Proof.
  unfold range. rewrite in_map_iff. intros [k [<- Hk]].
  apply in_seq in Hk. lia.
Qed.

Lemma log_lines_ok (all : list step) (idx : list Z) :
  Forall (fun i => 0 <= i < len all) idx ->
  exists lines, log_lines all idx = Ok lines.
Proof.
  induction 1 as [| i idx Hi _ [lines IH]]; cbn.
  - exists []. reflexivity.
  - destruct (py_index_nonneg all Hi) as [d [-> _]]. cbn.
    rewrite IH. cbn. eexists. reflexivity.
Qed.

(** With a bound trace the display is computed without an exception. *)
Lemma display_ok (s : BinarySearchApp) :
  bound s -> exists v, display_current_step s = Ok v.
Proof.
  intros [Hne Hc]. unfold display_current_step.
  destruct (all_steps s) as [| d0 rest] eqn:Hall; [congruence |].
  destruct (@py_index_nonneg _ (d0 :: rest) (current_step s)) as [d [-> _]];
    [lia |].
  cbn [bind].
  destruct (@log_lines_ok (d0 :: rest) (range (current_step s + 1)))
    as [lines ->].
  { apply Forall_forall. intros i Hi. apply range_bounds in Hi. lia. }
  cbn [bind]. eexists. reflexivity.
Qed.

(** C6 as stated fails: at the last step, with auto-play on, [next_step]
    leaves the cursor where it is and switches [is_playing] off. *)
Lemma next_step_changes_is_playing :
  bound playing_at_end /\
  current_step playing_at_end = len (all_steps playing_at_end) - 1 /\
  is_playing playing_at_end = true /\
  is_playing (fst (next_step playing_at_end)) = false /\
  ~ only_cursor_changed playing_at_end (fst (next_step playing_at_end)).
Proof.
  split; [bound_by_computation |].
  split; [vm_compute; reflexivity |].
  split; [vm_compute; reflexivity |].
  split; [vm_compute; reflexivity |].
  intros [_ Hp]. vm_compute in Hp. discriminate.
Qed.

Lemma reset_search_state (s : BinarySearchApp) :
  fst (reset_search s) = set_current_step s 0.
Proof. unfold reset_search. cbn. destruct (all_steps s); reflexivity. Qed.

(** C6, as the code has it.  With a bound trace, [previous_step] and
    [reset_search] change no attribute but the cursor; [next_step] changes
    no attribute but the cursor while the cursor is before the last step,
    and at the last step it keeps the cursor and every other attribute
    except [is_playing], which it sets to [False]. *)
Theorem navigation_frame (s : BinarySearchApp) :
  bound s ->
  only_cursor_changed s (fst (previous_step s)) /\
  only_cursor_changed s (fst (reset_search s)) /\
  same_session s (fst (next_step s)) /\
  (current_step s < len (all_steps s) - 1 ->
   only_cursor_changed s (fst (next_step s))) /\
  (current_step s = len (all_steps s) - 1 ->
   current_step (fst (next_step s)) = current_step s /\
   is_playing (fst (next_step s)) = false).
Proof.
  intros _. unfold only_cursor_changed, same_session.
  split; [| split].
  - unfold previous_step. destruct (current_step s >? 0); cbn; repeat split.
  - rewrite reset_search_state. cbn. repeat split.
  - unfold next_step.
    destruct (Z.ltb_spec (current_step s) (len (all_steps s) - 1));
      cbn -[len]; repeat split; intros; try reflexivity; lia.
Qed.

(** The session at the end of its trace is an instance. *)
Lemma navigation_frame_witness :
  bound playing_at_end /\
  only_cursor_changed playing_at_end (fst (previous_step playing_at_end)) /\
  only_cursor_changed playing_at_end (fst (reset_search playing_at_end)) /\
  same_session playing_at_end (fst (next_step playing_at_end)) /\
  (current_step playing_at_end < len (all_steps playing_at_end) - 1 ->
   only_cursor_changed playing_at_end (fst (next_step playing_at_end))) /\
  (current_step playing_at_end = len (all_steps playing_at_end) - 1 ->
   current_step (fst (next_step playing_at_end))
   = current_step playing_at_end /\
   is_playing (fst (next_step playing_at_end)) = false).
Proof.
  assert (bound playing_at_end) as Hb.
  { bound_by_computation. }
  split; [exact Hb |]. exact (navigation_frame Hb).
Defined.

(** C7.  With a bound trace: [next_step] then [previous_step] brings the
    cursor back when it was before the last step; [previous_step] at
    cursor 0 leaves it at 0; [next_step] at the last step leaves it there;
    and neither call raises. *)
Theorem advance_retreat_round_trip (s : BinarySearchApp) :
  bound s ->
  (current_step s < len (all_steps s) - 1 ->
   current_step (fst (previous_step (fst (next_step s)))) = current_step s) /\
  (current_step s = 0 -> current_step (fst (previous_step s)) = 0) /\
  (current_step s = len (all_steps s) - 1 ->
   current_step (fst (next_step s)) = current_step s) /\
  (exists v, snd (next_step s) = Ok v) /\
  (exists v, snd (previous_step s) = Ok v) /\
  bound (fst (next_step s)) /\ bound (fst (previous_step s)).
Proof.
  intros Hb.
  assert (bound (fst (next_step s))) as Hbn.
  { destruct Hb as [Hne Hc]. unfold bound, next_step.
    destruct (Z.ltb_spec (current_step s) (len (all_steps s) - 1));
      cbn; split; try assumption; lia. }
  assert (bound (fst (previous_step s))) as Hbp.
  { destruct Hb as [Hne Hc]. unfold bound, previous_step.
    destruct (Z.gtb_spec (current_step s) 0);
      cbn; split; try assumption; lia. }
  destruct Hb as [Hne Hc].
  split; [| split; [| split; [| split; [| split; [| split]]]]].
  - intros Hlt. unfold next_step, previous_step.
    destruct (Z.ltb_spec (current_step s) (len (all_steps s) - 1)); [| lia].
    cbn. destruct (Z.gtb_spec (current_step s + 1) 0); [| lia].
    cbn. lia.
  - intros H0. unfold previous_step.
    destruct (Z.gtb_spec (current_step s) 0); [lia | exact H0].
  - intros Hlast. unfold next_step.
    destruct (Z.ltb_spec (current_step s) (len (all_steps s) - 1)); [lia |].
    reflexivity.
  - apply (display_ok Hbn).
  - apply (display_ok Hbp).
  - exact Hbn.
  - exact Hbp.
Qed.

(** The session midway through its trace is an instance. *)
Lemma advance_retreat_round_trip_witness :
  bound found_search_midway /\
  current_step found_search_midway = 2 /\
  len (all_steps found_search_midway) = 4 /\
  (current_step found_search_midway
   < len (all_steps found_search_midway) - 1 ->
   current_step (fst (previous_step (fst (next_step found_search_midway))))
   = current_step found_search_midway) /\
  (current_step found_search_midway = 0 ->
   current_step (fst (previous_step found_search_midway)) = 0) /\
  (current_step found_search_midway
   = len (all_steps found_search_midway) - 1 ->
   current_step (fst (next_step found_search_midway))
   = current_step found_search_midway) /\
  (exists v, snd (next_step found_search_midway) = Ok v) /\
  (exists v, snd (previous_step found_search_midway) = Ok v) /\
  bound (fst (next_step found_search_midway)) /\
  bound (fst (previous_step found_search_midway)).
Proof.
  assert (bound found_search_midway) as Hb.
  { bound_by_computation. }
  split; [exact Hb |].
  split; [vm_compute; reflexivity |].
  split; [vm_compute; reflexivity |].
  exact (advance_retreat_round_trip Hb).
Defined.

(** ** The statistics panel *)

Lemma filter_all {A : Type} (p : A -> bool) (l : list A) :
  Forall (fun x => p x = true) l -> filter p l = l.
Proof.
  induction 1 as [| x l Hx _ IH]; [reflexivity |].
  cbn. rewrite Hx, IH. reflexivity.
Qed.

Lemma Forall_firstn {A : Type} (P : A -> Prop) (n : nat) (l : list A) :
  Forall P l -> Forall P (firstn n l).
Proof.
  intros H. revert n.
  induction H as [| x l Hx _ IH]; intros [| n]; cbn; constructor.
  - exact Hx.
  - apply IH.
Qed.

(** In a trace made of a first step without comparison, steps that each
    record one, and possibly a closing ['not_found'] step, the cursor equals
    the comparisons recorded up to it everywhere but on the closing step,
    where it is one more. *)
Lemma recorded_up_to_cursor (first : step) (new tail : list step)
    (c : Z) (d : step) :
  comparison first = None -> status first <> NotFound ->
  Forall (fun x => is_not_None (comparison x) = true) new ->
  Forall (fun x => status x <> NotFound) new ->
  (tail = [] \/
   exists nf, tail = [nf] /\ comparison nf = None /\ status nf = NotFound) ->
  0 <= c -> py_index (first :: new ++ tail) c = Ok d ->
  comparisons_recorded (first :: new ++ tail) c
  = if status_eqb (status d) NotFound then c - 1 else c.
Proof.
  intros Hfc Hfs Hcmp Hst Htail H0 Hd.
  apply py_index_nonneg_inv in Hd; [| assumption].
  destruct Hd as [Hlt Hnth].
  unfold comparisons_recorded.
  replace (Z.to_nat (c + 1)) with (S (Z.to_nat c)) by lia.
  cbn [firstn filter]. rewrite Hfc. cbn [is_not_None].
  rewrite len_cons, len_app in Hlt.
  destruct (Nat.le_gt_cases (Z.to_nat c) (List.length new)) as [Hle | Hgt].
  - rewrite firstn_app.
    replace (Z.to_nat c - List.length new)%nat with 0%nat by lia.
    cbn [firstn]. rewrite app_nil_r.
    rewrite filter_all by (apply Forall_firstn; exact Hcmp).
    unfold len. rewrite length_firstn, Nat.min_l by exact Hle.
    assert (status d <> NotFound) as Hds.
    { destruct (Z.to_nat c) as [| n] eqn:Hn; cbn in Hnth.
      - injection Hnth as <-. exact Hfs.
      - rewrite nth_error_app1 in Hnth by lia.
        apply nth_error_In in Hnth.
        rewrite Forall_forall in Hst. apply Hst. exact Hnth. }
    destruct (status d); cbn; try lia. congruence.
  - destruct Htail as [-> | [nf [-> [Hnc Hns]]]].
    + unfold len in Hlt. cbn in Hlt. lia.
    + unfold len in Hlt. cbn [List.length] in Hlt.
      assert (Z.to_nat c = S (List.length new)) as Hc by lia.
      rewrite firstn_all2 by (rewrite length_app; cbn; lia).
      rewrite filter_app. cbn [filter]. rewrite Hnc. cbn [is_not_None].
      rewrite app_nil_r, filter_all by exact Hcmp.
      rewrite Hc in Hnth. cbn in Hnth.
      rewrite nth_error_app2 in Hnth by lia.
      rewrite Nat.sub_diag in Hnth. cbn in Hnth. injection Hnth as <-.
      rewrite Hns. cbn. unfold len. lia.
Qed.

Lemma compared_recorded (arr : list Z) (t : Z) (d : step) :
  compared arr t d ->
  is_not_None (comparison d) = true /\ status d <> NotFound.
Proof.
  intros [l [r [m [v [_ [_ [_ [_ [_ [_ [_ [_ [_ Hc]]]]]]]]]]]]].
  destruct Hc as [[-> [-> _]] | [[-> [-> _]] | [-> [-> _]]]];
    split; (reflexivity || discriminate).
Qed.

(** On every trace of [execute], the cursor equals the comparisons recorded
    up to it unless it stands on the ['not_found'] step, where it exceeds
    them by one. *)
Lemma cursor_vs_recorded (A : list Z) (T : Z) :
  exists alg,
    execute (BinarySearchAlgorithm_init A T) = Ok alg /\
    forall c d, 0 <= c -> py_index (steps alg) c = Ok d ->
      comparisons_recorded (steps alg) c
      = if status_eqb (status d) NotFound then c - 1 else c.
Proof.
  destruct (execute_spec A T) as [st [new [_ [Hpost Hex]]]].
  destruct Hpost as [_ _ Hs _ Hcmp _]. cbn in Hcmp.
  rewrite entered_steps in Hs.
  assert (Forall (fun x => is_not_None (comparison x) = true) new) as H1.
  { eapply Forall_impl; [| exact Hcmp]. intros d Hd.
    apply (compared_recorded Hd). }
  assert (Forall (fun x => status x <> NotFound) new) as H2.
  { eapply Forall_impl; [| exact Hcmp]. intros d Hd.
    apply (compared_recorded Hd). }
  exists (finished st). split; [exact Hex |].
  intros c d H0 Hd. unfold finished in *.
  destruct (found (ls_self st)).
  - rewrite Hs in Hd |- *. cbn [app] in Hd |- *.
    rewrite <- (app_nil_r new) in Hd |- *.
    apply recorded_up_to_cursor; try assumption;
      [reflexivity | discriminate | left; reflexivity].
  - cbn [steps append_step] in Hd |- *. rewrite Hs in Hd |- *.
    cbn [app] in Hd |- *.
    apply recorded_up_to_cursor; try assumption;
      [reflexivity | discriminate |].
    right. eexists. split; [reflexivity |]. split; reflexivity.
Qed.

(** C5 fails on the code.  The panel prints the cursor as "Comparisons so
    far".  After the search for 24 in the scenario array the cursor on the
    last step is 5 and the panel prints 5, while the steps up to the cursor
    record 4 comparisons, the algorithm counted 4, and the message of that
    very step says 4. *)
Theorem stats_overcount_at_not_found :
  bound absent_search_at_end /\
  current_step absent_search_at_end = 5 /\
  option_map comparisons (algorithm absent_search_at_end) = Some 4 /\
  comparisons_recorded (all_steps absent_search_at_end) 5 = 4 /\
  exists v d,
    display_current_step absent_search_at_end = Ok v /\
    py_index (all_steps absent_search_at_end) 5 = Ok d /\
    status d = NotFound /\
    message d = "Search complete: 24 not found in array after 4 comparisons" /\
    stats_text v = stats_fstring 5 d 10 /\
    stats_text v =
      ("**Statistics:**" ++ nl ++ "- Comparisons so far: 5" ++ nl
       ++ "- Current search range: [6, 5]" ++ nl
       ++ "- Time Complexity: O(log n)" ++ nl
       ++ "- Array size (n): 10" ++ nl)%string.
Proof.
  split; [bound_by_computation |].
  split; [vm_compute; reflexivity |].
  split; [vm_compute; reflexivity |].
  split; [vm_compute; reflexivity |].
  eexists. eexists.
  split; [vm_compute; reflexivity |].
  split; [vm_compute; reflexivity |].
  repeat split.
Qed.

(** * Further properties of the code *)

(** ** Any run of [execute] *)



(** ** Hits, misses and the number of comparisons *)

Lemma execute_outcome (A : list Z) (T : Z) :
  exists alg,
    execute (BinarySearchAlgorithm_init A T) = Ok alg /\
    (found alg = true ->
     0 <= found_index alg <= len A - 1 /\
     py_index A (found_index alg) = Ok T /\
     comparisons alg = len (steps alg) - 1) /\
    (found alg = false ->
     found_index alg = -1 /\ comparisons alg = len (steps alg) - 2) /\
    0 <= comparisons alg <= Z.log2_up (len A + 1).
Proof.
  destruct (execute_spec A T) as [st [new [Hres [Hpost Hex]]]].
  exists (finished st). split; [exact Hex |].
  pose proof (Z.log2_up_nonneg (len A + 1)) as Hk.
  assert (len A < 2 ^ Z.log2_up (len A + 1)) as Hpow.
  { assert (0 <= len A) as Hn by (unfold len; lia).
    destruct (Z.eq_dec (len A) 0) as [H0 | H0].
    - rewrite H0. cbn. lia.
    - pose proof (Z.log2_up_spec (len A + 1)). lia. }
  assert (len A - 1 - 0 + 1 < 2 ^ Z.log2_up (len A + 1)) as Hpow' by lia.
  pose proof (@while_loop_count 0 (len A - 1) (entered A T) _ st Hk Hpow' Hres)
    as Hcount.
  destruct Hpost as [_ _ Hs Hc Hcmp Hout]. cbn in Hc, Hcmp.
  assert (len (steps (entered A T)) = 1) as He by reflexivity.
  assert (0 <= len new) by (unfold len; lia).
  assert (len (steps (ls_self st)) = 1 + len new) as Hlen
    by (rewrite Hs, len_app; lia).
  destruct Hout as [[Hf [pre [d [-> [_ [Hd Hm]]]]]] | [Hf [Hi [_ _]]]].
  - assert (finished st = ls_self st) as ->
      by (unfold finished; rewrite Hf; reflexivity).
    rewrite Hf. rewrite Forall_forall in Hcmp.
    assert (In d (pre ++ [d])) as Hin
      by (apply in_or_app; right; left; reflexivity).
    destruct (compared_found (Hcmp d Hin) Hd) as [_ [m [Hm' [Hb Hv]]]].
    assert (found_index (ls_self st) = m) as Hidx by congruence.
    split; [| split; [discriminate | lia]].
    intros _. rewrite Hidx. split; [exact Hb |]. split; [exact Hv | lia].
  - cbn in Hf, Hi.
    assert (finished st
            = append_step (ls_self st)
                (not_found_step (ls_self st) (ls_left st) (ls_right st)))
      as -> by (unfold finished; rewrite Hf; reflexivity).
    cbn [found append_step found_index comparisons steps]. rewrite Hf.
    split; [discriminate |]. split; [| lia].
    intros _. split; [exact Hi |].
    rewrite len_app.
    assert (len [not_found_step (ls_self st) (ls_left st) (ls_right st)] = 1)
      as -> by reflexivity.
    lia.
Qed.

(** X1.  Sorted or not, a hit reported by [execute] is real: when [found]
    is set, [found_index] is a position of the array and the array holds
    the target there; when it is not set, [found_index] is still -1. *)
Theorem execute_hit_is_real (A : list Z) (T : Z) :
  exists alg,
    execute (BinarySearchAlgorithm_init A T) = Ok alg /\
    (found alg = true ->
     0 <= found_index alg <= len A - 1 /\
     py_index A (found_index alg) = Ok T) /\
    (found alg = false -> found_index alg = -1).
Proof.
  destruct (execute_outcome A T) as [alg [Hex [Hhit [Hmiss _]]]].
  exists alg. split; [exact Hex |]. split.
  - intros Hf. destruct (Hhit Hf) as [Hb [Hv _]]. split; assumption.
  - intros Hf. apply (Hmiss Hf).
Qed.

(** X5.  Sorted or not, [execute] makes at most [ceil(log2(len + 1))]
    comparisons, and the counter is the number of recorded steps less the
    initial step and, after a miss, less the ['not_found'] step. *)
Theorem execute_comparisons_logarithmic (A : list Z) (T : Z) :
  exists alg,
    execute (BinarySearchAlgorithm_init A T) = Ok alg /\
    0 <= comparisons alg <= Z.log2_up (len A + 1) /\
    comparisons alg
    = len (steps alg) - (if found alg then 1 else 2).
Proof.
  destruct (execute_outcome A T) as [alg [Hex [Hhit [Hmiss Hlog]]]].
  exists alg. split; [exact Hex |]. split; [exact Hlog |].
  destruct (found alg).
  - apply (Hhit eq_refl).
  - apply (Hmiss eq_refl).
Qed.

(** ** Where a miss stops *)

(** On an ascending array the loop keeps everything left of [l] below the
    target and everything right of [r] above it; when it gives up, the two
    bounds have just crossed. *)
Lemma while_loop_brackets (l r : Z) (self : BinarySearchAlgorithm) :
  Sorted Z.le (array self) -> 0 <= l -> l <= r + 1 ->
  (forall i v, 0 <= i < l -> py_index (array self) i = Ok v ->
     v < target self) ->
  (forall i v, r < i -> py_index (array self) i = Ok v -> target self < v) ->
  found self = false ->
  forall st, while_loop l r self = Ok st -> found (ls_self st) = false ->
    ls_left st = ls_right st + 1 /\ l <= ls_left st /\ ls_right st <= r /\
    (forall i v, 0 <= i < ls_left st -> py_index (array self) i = Ok v ->
       v < target self) /\
    (forall i v, ls_right st < i -> py_index (array self) i = Ok v ->
       target self < v).
Proof.
  pattern l, r, self, (while_loop l r self).
  apply while_loop_induction; clear l r self.
  - intros l r self Hgt Hs H0 Hlr Hlo Hhi Hnf st [= <-] _. cbn.
    repeat split; try assumption; lia.
  - intros l r self _ _ _ _ _ _ _ _ st [=].
  - intros l r self v _ _ _ m self1 _ _ _ _ _ _ st [= <-]. cbn. discriminate.
  - intros l r self v res Hle Hv Hlt m self1 IH
      Hs H0 Hlr Hlo Hhi Hnf st Hres Hf.
    pose proof (mid_between Hle) as Hmid. fold m in Hmid, Hv.
    destruct (IH Hs) with (st := st) as [Hc [Hl [Hr [Hlo' Hhi']]]];
      try assumption; try lia.
    + intros i w Hi Hw. cbn in Hw |- *.
      assert (i <= m) as Him by lia.
      pose proof (sorted_py_index Hs (proj1 Hi) Him Hw Hv). lia.
    + repeat split; try assumption; lia.
  - intros l r self v res Hle Hv Hgt m self1 IH
      Hs H0 Hlr Hlo Hhi Hnf st Hres Hf.
    pose proof (mid_between Hle) as Hmid. fold m in Hmid, Hv.
    destruct (IH Hs) with (st := st) as [Hc [Hl [Hr [Hlo' Hhi']]]];
      try assumption; try lia.
    + intros i w Hi Hw. cbn in Hw |- *.
      assert (0 <= m) as Hm0 by lia. assert (m <= i) as Hmi by lia.
      pose proof (sorted_py_index Hs Hm0 Hmi Hv Hw). lia.
    + repeat split; try assumption; lia.
Qed.

(** X2.  On an array sorted in ascending order, a search that misses ends
    with the bounds just crossed, [right = left - 1], and [left] is the
    place where the target would have to be inserted: every value before
    it is smaller than the target and every value from it on is larger. *)
Theorem execute_miss_insertion_point (A : list Z) (T : Z) :
  Sorted Z.le A ->
  exists alg,
    execute (BinarySearchAlgorithm_init A T) = Ok alg /\
    (found alg = false ->
     exists pre d p,
       steps alg = (pre ++ [d])%list /\ status d = NotFound /\
       left d = Some p /\ right d = Some (p - 1) /\
       0 <= p <= len A /\
       (forall i v, 0 <= i < p -> py_index A i = Ok v -> v < T) /\
       (forall i v, p <= i -> py_index A i = Ok v -> T < v)).
Proof.
  intros Hsorted.
  destruct (execute_spec A T) as [st [new [Hres [_ Hex]]]].
  exists (finished st). split; [exact Hex |].
  destruct (found (ls_self st)) eqn:Hf.
  - assert (finished st = ls_self st) as ->
      by (unfold finished; rewrite Hf; reflexivity).
    congruence.
  - assert (finished st
            = append_step (ls_self st)
                (not_found_step (ls_self st) (ls_left st) (ls_right st)))
      as -> by (unfold finished; rewrite Hf; reflexivity).
    intros _.
    destruct (@while_loop_brackets 0 (len A - 1) (entered A T))
      with (st := st) as [Hcross [Hl [Hr [Hlo Hhi]]]];
      try assumption; try reflexivity.
    + unfold len. lia.
    + intros i v Hi _. lia.
    + intros i v Hi Hv. cbn in Hv.
      assert (0 <= len A) by (unfold len; lia).
      apply py_index_nonneg_inv in Hv; lia.
    + cbn in Hlo, Hhi.
      exists (steps (ls_self st)),
        (not_found_step (ls_self st) (ls_left st) (ls_right st)),
        (ls_left st).
      cbn. repeat split; try assumption; try lia.
      * f_equal. lia.
      * intros i v Hi Hv. apply (Hhi i v); [lia | exact Hv].
Qed.

(** The second scenario is an instance: 5 would go to position 2 of
    [2, 4, 6]. *)
Lemma execute_miss_insertion_point_witness :
  Sorted Z.le [2; 4; 6] /\
  exists alg,
    execute (BinarySearchAlgorithm_init [2; 4; 6] 5) = Ok alg /\
    (found alg = false ->
     exists pre d p,
       steps alg = (pre ++ [d])%list /\ status d = NotFound /\
       left d = Some p /\ right d = Some (p - 1) /\
       0 <= p <= len [2; 4; 6] /\
       (forall i v, 0 <= i < p -> py_index [2; 4; 6] i = Ok v -> v < 5) /\
       (forall i v, p <= i -> py_index [2; 4; 6] i = Ok v -> 5 < v)).
Proof.
  assert (Sorted Z.le [2; 4; 6]) as Hs by (repeat constructor; lia).
  split; [exact Hs |].
  exact (@execute_miss_insertion_point [2; 4; 6] 5 Hs).
Defined.

(** ** The interval only narrows *)

Lemma narrowing_widen (l r l0 r0 : Z) (ds : list step) :
  l <= l0 -> r0 <= r -> narrowing l0 r0 ds -> narrowing l r ds.
Proof.
  intros Hl Hr. destruct ds as [| d rest]; [trivial |].
  cbn. intros [l' [r' [Hdl [Hdr [Hl' [Hr' Hrest]]]]]].
  exists l', r'. repeat split; try assumption; lia.
Qed.

Lemma narrowing_adjacent (ds : list step) :
  forall l r, narrowing l r ds ->
  forall k d1 d2,
    nth_error ds k = Some d1 -> nth_error ds (S k) = Some d2 ->
    within d1 d2.
Proof.
  induction ds as [| d rest IH]; intros l r Hn k d1 d2 H1 H2.
  - destruct k; discriminate.
  - cbn in Hn. destruct Hn as [l' [r' [Hdl [Hdr [_ [_ Hrest]]]]]].
    destruct k as [| k]; cbn in H1, H2.
    + injection H1 as <-.
      destruct rest as [| e rest']; [discriminate |].
      cbn in H2. injection H2 as <-.
      cbn in Hrest. destruct Hrest as [l2 [r2 [Hel [Her [Hl2 [Hr2 _]]]]]].
      exists l', r', l2, r2. repeat split; assumption.
    + apply (IH l' r' Hrest k d1 d2 H1 H2).
Qed.

(** The steps the loop appends continue the chain of intervals that ends
    where the loop stops. *)
Lemma while_loop_narrows (l r : Z) (self : BinarySearchAlgorithm) :
  forall st, while_loop l r self = Ok st ->
  exists new,
    steps (ls_self st) = (steps self ++ new)%list /\
    forall tail,
      narrowing (ls_left st) (ls_right st) tail ->
      narrowing l r (new ++ tail).
Proof.
  pattern l, r, self, (while_loop l r self).
  apply while_loop_induction; clear l r self.
  - intros l r self _ st [= <-]. exists []. cbn.
    split; [rewrite app_nil_r; reflexivity | trivial].
  - intros l r self _ _ st [=].
  - intros l r self v _ _ _ m self1 st [= <-].
    exists [found_step self1 l r m v]. cbn.
    split; [reflexivity |]. intros tail Htail.
    exists l, r. repeat split; try assumption; lia.
  - intros l r self v res Hle _ _ m self1 IH st Hres.
    pose proof (mid_between Hle) as Hmid. fold m in Hmid.
    destruct (IH st Hres) as [new [Hs Hchain]]. cbn in Hs.
    exists (less_step self1 l r m v :: new).
    split; [rewrite Hs, <- app_assoc; reflexivity |].
    intros tail Htail. cbn. exists l, r.
    repeat split; try lia.
    apply narrowing_widen with (l0 := m + 1) (r0 := r); try lia.
    apply Hchain. exact Htail.
  - intros l r self v res Hle _ _ m self1 IH st Hres.
    pose proof (mid_between Hle) as Hmid. fold m in Hmid.
    destruct (IH st Hres) as [new [Hs Hchain]]. cbn in Hs.
    exists (greater_step self1 l r m v :: new).
    split; [rewrite Hs, <- app_assoc; reflexivity |].
    intros tail Htail. cbn. exists l, r.
    repeat split; try lia.
    apply narrowing_widen with (l0 := l) (r0 := m - 1); try lia.
    apply Hchain. exact Htail.
Qed.

(** X3.  Sorted or not, the search interval only narrows along the trace:
    the first step holds the whole array, [0 .. len - 1], and the interval
    of every later step lies within the interval of the step before it. *)
Theorem execute_interval_narrows (A : list Z) (T : Z) :
  exists alg first rest,
    execute (BinarySearchAlgorithm_init A T) = Ok alg /\
    steps alg = first :: rest /\
    left first = Some 0 /\ right first = Some (len A - 1) /\
    forall k d1 d2,
      nth_error (steps alg) k = Some d1 ->
      nth_error (steps alg) (S k) = Some d2 ->
      within d1 d2.
Proof.
  destruct (execute_spec A T) as [st [_ [Hres [_ Hex]]]].
  destruct (@while_loop_narrows 0 (len A - 1) (entered A T) st Hres)
    as [new [Hs Hchain]].
  rewrite entered_steps in Hs.
  set (first := initial_step (BinarySearchAlgorithm_init A T) 0 (len A - 1))
    in Hs.
  exists (finished st), first.
  assert (forall tail,
            narrowing (ls_left st) (ls_right st) tail ->
            narrowing 0 (len A - 1) (first :: new ++ tail)) as Hall.
  { intros tail Htail. cbn. exists 0, (len A - 1).
    repeat split; try lia. apply Hchain. exact Htail. }
  unfold finished in *. destruct (found (ls_self st)).
  - exists new. split; [exact Hex |]. rewrite Hs.
    repeat split.
    specialize (Hall [] I). rewrite app_nil_r in Hall.
    apply (@narrowing_adjacent _ 0 (len A - 1) Hall).
  - exists (new
            ++ [not_found_step (ls_self st) (ls_left st) (ls_right st)])%list.
    split; [exact Hex |]. cbn [steps append_step]. rewrite Hs.
    repeat split.
    apply (@narrowing_adjacent _ 0 (len A - 1)). apply Hall.
    cbn. exists (ls_left st), (ls_right st). repeat split; lia.
Qed.

(** ** Charts *)

Lemma bar_color_highlight (d : step) (i : Z) :
  bar_color d i = Color.found \/ bar_color d i = Color.current ->
  mid d = Some i.
Proof.
  unfold bar_color.
  destruct (status_eqb (status d) Found && eq_opt i (mid d)) eqn:Hf.
  - intros _. apply andb_prop in Hf. apply eq_opt_eq. apply Hf.
  - destruct (is_not_None (mid d) && eq_opt i (mid d)) eqn:Hm.
    + intros _. apply andb_prop in Hm. apply eq_opt_eq. apply Hm.
    + destruct (left d), (right d); try (intros [H | H]; discriminate).
      destruct ((i <? z) || (i >? z0)); intros [H | H]; discriminate.
Qed.

Lemma bar_colors_all (vis : BinarySearchVisualizer) (arr : list Z)
    (d : step) (k : Color.key) :
  (forall i, 0 <= i <= len arr - 1 -> bar_color d i = k) ->
  Forall (eq (colors vis k)) (bar_colors (create_bar_chart vis arr d)).
Proof.
  intros Hall. cbn [bar_colors create_bar_chart].
  apply Forall_forall. intros c Hc. apply in_map_iff in Hc.
  destruct Hc as [i [<- Hi]]. apply range_bounds in Hi.
  rewrite Hall by lia. reflexivity.
Qed.

(** X7.  Whatever the step, the chart has one bar per array position, with
    the array values as heights, and at most one bar carries the ['found']
    or the ['current'] colour key: the one at [mid]. *)
Theorem chart_one_highlight (vis : BinarySearchVisualizer) (arr : list Z)
    (d : step) :
  bar_heights (create_bar_chart vis arr d) = arr /\
  len (bar_colors (create_bar_chart vis arr d)) = len arr /\
  forall i j,
    bar_color d i = Color.found \/ bar_color d i = Color.current ->
    bar_color d j = Color.found \/ bar_color d j = Color.current ->
    i = j /\ mid d = Some i.
Proof.
  split; [reflexivity |]. split.
  - unfold len. cbn [bar_colors create_bar_chart]. unfold range.
    rewrite !length_map, length_seq. unfold len. lia.
  - intros i j Hi Hj.
    apply bar_color_highlight in Hi. apply bar_color_highlight in Hj.
    split; [congruence | exact Hi].
Qed.

(** X6.  In the chart of the first step of a trace every bar has the
    ['default'] colour, and in the chart of a ['not_found'] step every bar
    has the ['eliminated'] colour. *)
Theorem chart_at_trace_ends (vis : BinarySearchVisualizer)
    (A : list Z) (T : Z) :
  exists alg first rest,
    execute (BinarySearchAlgorithm_init A T) = Ok alg /\
    steps alg = first :: rest /\
    Forall (eq (colors vis Color.default))
      (bar_colors (create_bar_chart vis A first)) /\
    forall d, In d (steps alg) -> status d = NotFound ->
      Forall (eq (colors vis Color.eliminated))
        (bar_colors (create_bar_chart vis A d)).
Proof.
  destruct (execute_spec A T) as [st [new [_ [Hpost Hex]]]].
  destruct Hpost as [_ _ Hs _ Hcmp Hout]. cbn in Hcmp.
  rewrite entered_steps in Hs.
  set (first := initial_step (BinarySearchAlgorithm_init A T) 0 (len A - 1))
    in Hs.
  assert (Forall (eq (colors vis Color.default))
            (bar_colors (create_bar_chart vis A first))) as Hfirst.
  { apply bar_colors_all. intros i Hi. unfold bar_color. cbn.
    destruct (Z.ltb_spec i 0); [lia |].
    rewrite Z.gtb_ltb. destruct (Z.ltb_spec (len A - 1) i); [lia |].
    reflexivity. }
  assert (forall d, In d new -> status d <> NotFound) as Hnew.
  { intros d Hd. rewrite Forall_forall in Hcmp.
    apply (compared_recorded (Hcmp d Hd)). }
  exists (finished st), first. unfold finished in *.
  destruct (found (ls_self st)) eqn:Hf.
  - exists new. split; [exact Hex |]. split; [rewrite Hs; reflexivity |].
    split; [exact Hfirst |]. intros d Hd Hst. exfalso.
    rewrite Hs in Hd. cbn in Hd. destruct Hd as [<- | Hd].
    + discriminate.
    + apply (Hnew d Hd Hst).
  - destruct Hout as [[Hf' _] | [_ [_ [_ Hgt]]]]; [congruence |].
    exists (new
            ++ [not_found_step (ls_self st) (ls_left st) (ls_right st)])%list.
    split; [exact Hex |].
    split; [cbn [steps append_step]; rewrite Hs; reflexivity |].
    split; [exact Hfirst |]. intros d Hd Hst.
    cbn [steps append_step] in Hd. rewrite Hs in Hd.
    apply in_app_or in Hd. destruct Hd as [Hd | [<- | []]].
    + exfalso. cbn in Hd. destruct Hd as [<- | Hd].
      * discriminate.
      * apply (Hnew d Hd Hst).
    + apply bar_colors_all. intros i _. unfold bar_color. cbn.
      rewrite Z.gtb_ltb.
      destruct (Z.ltb_spec i (ls_left st)); [reflexivity |].
      destruct (Z.ltb_spec (ls_right st) i); [reflexivity | lia].
Qed.

(** ** The display *)



Lemma skipn_nth_error {A : Type} (l : list A) (k : nat) (d : A) :
  nth_error l k = Some d -> skipn k l = d :: skipn (S k) l.
Proof.
  revert k. induction l as [| x l IH]; intros [| k] H; try discriminate.
  - injection H as ->. reflexivity.
  - cbn in H. apply IH in H. exact H.
Qed.

(** The log loop over the positions [k .. k+n-1] collects the messages of
    those steps. *)
Lemma log_lines_seq (all : list step) (n k : nat) :
  (k + n <= List.length all)%nat ->
  log_lines all (map Z.of_nat (seq k n))
  = Ok (map message (firstn n (skipn k all))).
Proof.
  revert k. induction n as [| n IH]; intros k Hk; [reflexivity |].
  cbn [seq map log_lines].
  destruct (@py_index_nonneg _ all (Z.of_nat k)) as [d [-> Hd]];
    [unfold len; lia |].
  rewrite Nat2Z.id in Hd. cbn [bind].
  rewrite IH by lia. cbn [bind].
  rewrite (skipn_nth_error _ _ Hd). reflexivity.
Qed.

(** X8.  With a bound trace the display is made of the chart of the
    current array for the step under the cursor, the statistics for that
    step, the messages of the steps up to the cursor joined by newlines,
    in order, and the counter "Step cursor+1 of len". *)
Theorem display_contents (s : BinarySearchApp) :
  bound s ->
  exists d,
    py_index (all_steps s) (current_step s) = Ok d /\
    display_current_step s =
      Ok {| image := Some (create_bar_chart (visualizer s)
                             (current_array s) d);
            stats_text := stats_fstring (current_step s) d
                            (len (current_array s));
            log_text :=
              String.concat nl
                (map message
                   (firstn (Z.to_nat (current_step s + 1)) (all_steps s)));
            step_info := ("Step " ++ str (current_step s + 1) ++ " of "
                          ++ str (len (all_steps s)))%string |}.
Proof.
  intros [Hne Hc]. unfold display_current_step.
  destruct (all_steps s) as [| d0 rest] eqn:Hall; [congruence |].
  destruct (@py_index_nonneg _ (d0 :: rest) (current_step s))
    as [d [Hd _]]; [lia |].
  exists d. split; [exact Hd |]. rewrite Hd. cbn [bind].
  unfold range. rewrite log_lines_seq by (unfold len in Hc; lia).
  reflexivity.
Qed.

(** The session midway through its trace is an instance. *)
Lemma display_contents_witness :
  bound found_search_midway /\
  exists d,
    py_index (all_steps found_search_midway)
      (current_step found_search_midway) = Ok d /\
    display_current_step found_search_midway =
      Ok {| image := Some (create_bar_chart (visualizer found_search_midway)
                             (current_array found_search_midway) d);
            stats_text := stats_fstring (current_step found_search_midway) d
                            (len (current_array found_search_midway));
            log_text :=
              String.concat nl
                (map message
                   (firstn (Z.to_nat (current_step found_search_midway + 1))
                      (all_steps found_search_midway)));
            step_info := ("Step "
                          ++ str (current_step found_search_midway + 1)
                          ++ " of "
                          ++ str (len (all_steps found_search_midway)))%string
         |}.
Proof.
  assert (bound found_search_midway) as Hb by bound_by_computation.
  split; [exact Hb |]. exact (display_contents Hb).
Defined.


(** ** Moving the cursor *)

Lemma same_session_refl (s : BinarySearchApp) : same_session s s.
Proof. repeat split. Qed.

Lemma same_session_trans (s1 s2 s3 : BinarySearchApp) :
  same_session s1 s2 -> same_session s2 s3 -> same_session s1 s3.
Proof.
  unfold same_session. intros [A1 [B1 [C1 [D1 E1]]]] [A2 [B2 [C2 [D2 E2]]]].
  repeat split; congruence.
Qed.


Lemma next_step_session (s : BinarySearchApp) :
  same_session s (fst (next_step s)).
Proof.
  unfold next_step.
  destruct (current_step s <? len (all_steps s) - 1); repeat split.
Qed.

Lemma previous_step_session (s : BinarySearchApp) :
  same_session s (fst (previous_step s)).
Proof.
  unfold previous_step. destruct (current_step s >? 0); repeat split.
Qed.

Lemma next_step_cursor (s : BinarySearchApp) :
  bound s ->
  current_step (fst (next_step s))
  = Z.min (current_step s + 1) (len (all_steps s) - 1).
Proof.
  intros [_ Hc]. unfold next_step.
  destruct (Z.ltb_spec (current_step s) (len (all_steps s) - 1)); cbn; lia.
Qed.

Lemma previous_step_cursor (s : BinarySearchApp) :
  bound s ->
  current_step (fst (previous_step s)) = Z.max (current_step s - 1) 0.
Proof.
  intros [_ Hc]. unfold previous_step.
  destruct (Z.gtb_spec (current_step s) 0); cbn; lia.
Qed.

Lemma bound_moved (s s' : BinarySearchApp) :
  bound s -> same_session s s' ->
  0 <= current_step s' <= len (all_steps s) - 1 -> bound s'.
Proof.
  intros [Hne _] [_ [_ [_ [_ Hs]]]] Hc. unfold bound. rewrite Hs.
  split; assumption.
Qed.

Lemma advance_by_spec (n : nat) :
  forall s, bound s ->
    bound (advance_by n s) /\ same_session s (advance_by n s) /\
    current_step (advance_by n s)
    = Z.min (current_step s + Z.of_nat n) (len (all_steps s) - 1).
Proof.
  induction n as [| n IH]; intros s Hb.
  - cbn [advance_by]. destruct Hb as [Hne Hc].
    repeat split; try assumption; lia.
  - cbn [advance_by].
    pose proof (next_step_session s) as Hs1.
    pose proof (next_step_cursor Hb) as Hc1.
    assert (bound (fst (next_step s))) as Hb1.
    { apply (bound_moved Hb Hs1). destruct Hb as [_ Hc]. lia. }
    destruct (IH _ Hb1) as [Hbn [Hsn Hcn]].
    assert (all_steps (fst (next_step s)) = all_steps s) as Hall
      by apply Hs1.
    split; [exact Hbn |].
    split; [apply (same_session_trans Hs1 Hsn) |].
    rewrite Hcn, Hc1, Hall. destruct Hb as [_ Hc]. lia.
Qed.

Lemma retreat_by_spec (n : nat) :
  forall s, bound s ->
    bound (retreat_by n s) /\ same_session s (retreat_by n s) /\
    is_playing (retreat_by n s) = is_playing s /\
    current_step (retreat_by n s)
    = Z.max (current_step s - Z.of_nat n) 0.
Proof.
  induction n as [| n IH]; intros s Hb.
  - cbn [retreat_by]. destruct Hb as [Hne Hc].
    repeat split; try assumption; lia.
  - cbn [retreat_by].
    pose proof (previous_step_session s) as Hs1.
    pose proof (previous_step_cursor Hb) as Hc1.
    assert (bound (fst (previous_step s))) as Hb1.
    { apply (bound_moved Hb Hs1). destruct Hb as [_ Hc]. lia. }
    destruct (IH _ Hb1) as [Hbn [Hsn [Hpn Hcn]]].
    split; [exact Hbn |].
    split; [apply (same_session_trans Hs1 Hsn) |].
    split.
    + rewrite Hpn. unfold previous_step.
      destruct (current_step s >? 0); reflexivity.
    + rewrite Hcn, Hc1. lia.
Qed.

(** X10.  With a bound trace, [n] calls of [next_step] move the cursor
    forward by [n] but not past the last step, and [n] calls of
    [previous_step] move it back by [n] but not below 0; the trace, the
    array and the target stay as they are. *)
Theorem navigation_saturates (s : BinarySearchApp) (n : nat) :
  bound s ->
  current_step (advance_by n s)
  = Z.min (current_step s + Z.of_nat n) (len (all_steps s) - 1) /\
  current_step (retreat_by n s) = Z.max (current_step s - Z.of_nat n) 0 /\
  same_session s (advance_by n s) /\ same_session s (retreat_by n s) /\
  bound (advance_by n s) /\ bound (retreat_by n s).
Proof.
  intros Hb.
  destruct (advance_by_spec n Hb) as [Hba [Hsa Hca]].
  destruct (retreat_by_spec n Hb) as [Hbr [Hsr [_ Hcr]]].
  split; [exact Hca |]. split; [exact Hcr |]. split; [exact Hsa |].
  split; [exact Hsr |]. split; assumption.
Qed.

(** Seven calls from the third of four steps are an instance. *)
Lemma navigation_saturates_witness :
  bound found_search_midway /\
  current_step (advance_by 7 found_search_midway)
  = Z.min (current_step found_search_midway + Z.of_nat 7)
      (len (all_steps found_search_midway) - 1) /\
  current_step (retreat_by 7 found_search_midway)
  = Z.max (current_step found_search_midway - Z.of_nat 7) 0 /\
  same_session found_search_midway (advance_by 7 found_search_midway) /\
  same_session found_search_midway (retreat_by 7 found_search_midway) /\
  bound (advance_by 7 found_search_midway) /\
  bound (retreat_by 7 found_search_midway).
Proof.
  assert (bound found_search_midway) as Hb by bound_by_computation.
  split; [exact Hb |]. exact (@navigation_saturates _ 7%nat Hb).
Defined.



(** ** Starting a search *)

Lemma execute_steps_nonempty (A : list Z) (T : Z) :
  exists alg first rest,
    execute (BinarySearchAlgorithm_init A T) = Ok alg /\
    steps alg = first :: rest.
Proof.
  destruct (execute_spec A T) as [st [new [_ [Hpost Hex]]]].
  destruct Hpost as [_ _ Hs _ _ _]. rewrite entered_steps in Hs.
  exists (finished st). unfold finished in *.
  destruct (found (ls_self st)).
  - eexists; eexists. split; [exact Hex | exact Hs].
  - eexists; eexists. split; [exact Hex |].
    cbn [steps append_step]. rewrite Hs. reflexivity.
Qed.

Lemma initialize_search_ok (s : BinarySearchApp) (A : list Z) (T : Z) :
  A <> [] ->
  exists alg d,
    execute (BinarySearchAlgorithm_init A T) = Ok alg /\
    bound (started s alg T) /\
    display_current_step (started s alg T) = Ok d /\
    initialize_search s A T = Ok (started s alg T, d).
Proof.
  intros Hne.
  destruct (execute_steps_nonempty A T) as [alg [first [rest [Hex Hs]]]].
  assert (bound (started s alg T)) as Hb.
  { unfold bound. cbn. rewrite Hs. split; [discriminate |].
    rewrite len_cons. unfold len. lia. }
  destruct (display_ok Hb) as [d Hd].
  exists alg, d. split; [exact Hex |]. split; [exact Hb |].
  split; [exact Hd |].
  unfold initialize_search. destruct A as [| a A']; [congruence |].
  rewrite Hex. cbn [bind]. fold (started s alg T). rewrite Hd. reflexivity.
Qed.

(** X12.  On a non-empty array [initialize_search] does not raise.  It
    binds the trace of [execute] for that array and target with the cursor
    on 0, stores the algorithm object and the target, and returns the
    display of the first step.  It keeps [current_array], whatever array was
    passed, and [is_playing]. *)
Theorem initialize_search_binds (s : BinarySearchApp) (A : list Z) (T : Z) :
  A <> [] ->
  exists alg s' d,
    execute (BinarySearchAlgorithm_init A T) = Ok alg /\
    initialize_search s A T = Ok (s', d) /\
    bound s' /\ current_step s' = 0 /\
    all_steps s' = steps alg /\ algorithm s' = Some alg /\
    current_target s' = Some T /\
    current_array s' = current_array s /\
    visualizer s' = visualizer s /\ is_playing s' = is_playing s /\
    display_current_step s' = Ok d.
Proof.
  intros Hne.
  destruct (initialize_search_ok s T Hne) as [alg [d [Hex [Hb [Hd Hinit]]]]].
  exists alg, (started s alg T), d.
  repeat split; try assumption; apply Hb.
Qed.

(** A search for 23 in the scenario array is an instance. *)
Lemma initialize_search_binds_witness :
  scenario_array <> [] /\
  exists alg s' d,
    execute (BinarySearchAlgorithm_init scenario_array 23) = Ok alg /\
    initialize_search (generated scenario_array) scenario_array 23
    = Ok (s', d) /\
    bound s' /\ current_step s' = 0 /\
    all_steps s' = steps alg /\ algorithm s' = Some alg /\
    current_target s' = Some 23 /\
    current_array s' = current_array (generated scenario_array) /\
    visualizer s' = visualizer (generated scenario_array) /\
    is_playing s' = is_playing (generated scenario_array) /\
    display_current_step s' = Ok d.
Proof.
  assert (scenario_array <> []) as Hne by discriminate.
  split; [exact Hne |].
  exact (@initialize_search_binds (generated scenario_array)
           scenario_array 23 Hne).
Defined.

(** ** Auto-play *)

Lemma set_current_step_same (s : BinarySearchApp) :
  set_current_step s (current_step s) = s.
Proof. destruct s. reflexivity. Qed.

Lemma set_current_step_twice (s : BinarySearchApp) (a b : Z) :
  set_current_step (set_current_step s a) b = set_current_step s b.
Proof. reflexivity. Qed.

Lemma auto_play_by_spec (n : nat) :
  forall s, bound s -> is_playing s = true ->
    current_step s + Z.of_nat n <= len (all_steps s) - 1 ->
    bound (auto_play_by n s) /\ same_session s (auto_play_by n s) /\
    is_playing (auto_play_by n s) = true /\
    current_step (auto_play_by n s) = current_step s + Z.of_nat n.
Proof.
  induction n as [| n IH]; intros s Hb Hp Hn.
  - cbn [auto_play_by]. split; [exact Hb |].
    split; [apply same_session_refl |]. split; [exact Hp | lia].
  - cbn [auto_play_by]. unfold auto_play_step. rewrite Hp. cbn [negb].
    destruct (Z.ltb_spec (current_step s) (len (all_steps s) - 1)); [| lia].
    cbn [fst].
    set (s1 := set_current_step s (current_step s + 1)).
    assert (bound s1) as Hb1.
    { destruct Hb as [Hne Hc]. split; [exact Hne | cbn; lia]. }
    destruct (IH s1 Hb1 Hp) as [Hbn [Hsn [Hpn Hcn]]]; [cbn; lia |].
    split; [exact Hbn |]. split; [exact Hsn |]. split; [exact Hpn |].
    rewrite Hcn. cbn. lia.
Qed.

Lemma auto_play_by_succ (k : nat) :
  forall s, auto_play_by (S k) s = fst (auto_play_step (auto_play_by k s)).
Proof.
  induction k as [| k IH]; intros s; [reflexivity |].
  cbn [auto_play_by] in *. apply IH.
Qed.

(** X13.  With a bound trace and [is_playing] set, [auto_play_step] moves
    the cursor one step and returns [True] as long as the cursor is before
    the last step; the call made on the last step returns [False], clears
    [is_playing] and keeps the cursor; from then on the method changes
    nothing. *)
Theorem auto_play_stops_at_end (s : BinarySearchApp) :
  bound s -> is_playing s = true ->
  (forall k, (k < Z.to_nat (len (all_steps s) - 1 - current_step s))%nat ->
     current_step (auto_play_by (S k) s) = current_step s + Z.of_nat (S k) /\
     exists d, snd (auto_play_step (auto_play_by k s)) = Ok (d, true)) /\
  (exists d,
     snd (auto_play_step
            (auto_play_by
               (Z.to_nat (len (all_steps s) - 1 - current_step s)) s))
     = Ok (d, false)) /\
  current_step
    (auto_play_by (S (Z.to_nat (len (all_steps s) - 1 - current_step s))) s)
  = len (all_steps s) - 1 /\
  is_playing
    (auto_play_by (S (Z.to_nat (len (all_steps s) - 1 - current_step s))) s)
  = false /\
  same_session s
    (auto_play_by (S (Z.to_nat (len (all_steps s) - 1 - current_step s))) s) /\
  forall s0, is_playing s0 = false -> fst (auto_play_step s0) = s0.
Proof.
  intros Hb Hp.
  set (n := Z.to_nat (len (all_steps s) - 1 - current_step s)).
  assert (0 <= current_step s <= len (all_steps s) - 1) as Hc by apply Hb.
  pose proof (fun k => auto_play_by_succ k s) as Hsucc.
  split; [| split; [| split; [| split; [| split]]]].
  - intros k Hk.
    destruct (@auto_play_by_spec k s Hb Hp) as [Hbk [Hsk [Hpk Hck]]];
      [lia |].
    destruct (@auto_play_by_spec (S k) s Hb Hp) as [Hbk' [_ [_ Hck']]];
      [lia |].
    split; [exact Hck' |].
    rewrite Hsucc in Hbk'. destruct (display_ok Hbk') as [d Hd].
    exists d. revert Hd. unfold auto_play_step. rewrite Hpk. cbn [negb].
    assert (all_steps (auto_play_by k s) = all_steps s) as -> by apply Hsk.
    destruct (Z.ltb_spec (current_step (auto_play_by k s))
                (len (all_steps s) - 1)); [| lia].
    cbn [fst snd]. intros ->. reflexivity.
  - destruct (@auto_play_by_spec n s Hb Hp) as [Hbn [Hsn [Hpn Hcn]]];
      [lia |].
    assert (all_steps (auto_play_by n s) = all_steps s) as Hall by apply Hsn.
    assert (bound (set_is_playing (auto_play_by n s) false)) as Hbf
      by exact Hbn.
    destruct (display_ok Hbf) as [d Hd]. exists d.
    unfold auto_play_step. rewrite Hpn. cbn [negb]. rewrite Hall.
    destruct (Z.ltb_spec (current_step (auto_play_by n s))
                (len (all_steps s) - 1)); [lia |].
    cbn [snd]. rewrite Hd. reflexivity.
  - destruct (@auto_play_by_spec n s Hb Hp) as [Hbn [Hsn [Hpn Hcn]]];
      [lia |].
    assert (all_steps (auto_play_by n s) = all_steps s) as Hall by apply Hsn.
    rewrite Hsucc. unfold auto_play_step. rewrite Hpn. cbn [negb].
    rewrite Hall.
    destruct (Z.ltb_spec (current_step (auto_play_by n s))
                (len (all_steps s) - 1)); [lia |].
    cbn. lia.
  - destruct (@auto_play_by_spec n s Hb Hp) as [Hbn [Hsn [Hpn Hcn]]];
      [lia |].
    assert (all_steps (auto_play_by n s) = all_steps s) as Hall by apply Hsn.
    rewrite Hsucc. unfold auto_play_step. rewrite Hpn. cbn [negb].
    rewrite Hall.
    destruct (Z.ltb_spec (current_step (auto_play_by n s))
                (len (all_steps s) - 1)); [lia |].
    reflexivity.
  - destruct (@auto_play_by_spec n s Hb Hp) as [Hbn [Hsn [Hpn Hcn]]];
      [lia |].
    assert (all_steps (auto_play_by n s) = all_steps s) as Hall by apply Hsn.
    rewrite Hsucc. unfold auto_play_step. rewrite Hpn. cbn [negb].
    rewrite Hall.
    destruct (Z.ltb_spec (current_step (auto_play_by n s))
                (len (all_steps s) - 1)); [lia |].
    exact Hsn.
  - intros s0 Hp0. unfold auto_play_step. rewrite Hp0. reflexivity.
Qed.

(** The session midway through its trace, auto-play switched on, is an
    instance. *)
Lemma auto_play_stops_at_end_witness :
  bound playing_midway /\ is_playing playing_midway = true /\
  (forall k,
     (k < Z.to_nat (len (all_steps playing_midway) - 1
                    - current_step playing_midway))%nat ->
     current_step (auto_play_by (S k) playing_midway)
     = current_step playing_midway + Z.of_nat (S k) /\
     exists d,
       snd (auto_play_step (auto_play_by k playing_midway)) = Ok (d, true)) /\
  (exists d,
     snd (auto_play_step
            (auto_play_by
               (Z.to_nat (len (all_steps playing_midway) - 1
                          - current_step playing_midway)) playing_midway))
     = Ok (d, false)) /\
  current_step
    (auto_play_by
       (S (Z.to_nat (len (all_steps playing_midway) - 1
                     - current_step playing_midway))) playing_midway)
  = len (all_steps playing_midway) - 1 /\
  is_playing
    (auto_play_by
       (S (Z.to_nat (len (all_steps playing_midway) - 1
                     - current_step playing_midway))) playing_midway)
  = false /\
  same_session playing_midway
    (auto_play_by
       (S (Z.to_nat (len (all_steps playing_midway) - 1
                     - current_step playing_midway))) playing_midway) /\
  forall s0, is_playing s0 = false -> fst (auto_play_step s0) = s0.
Proof.
  assert (bound playing_midway) as Hb by bound_by_computation.
  assert (is_playing playing_midway = true) as Hp
    by (vm_compute; reflexivity).
  split; [exact Hb |]. split; [exact Hp |].
  exact (@auto_play_stops_at_end playing_midway Hb Hp).
Defined.

(** ** The auto-play generator *)

Lemma run_auto_play_done (s : BinarySearchApp) :
  py_bool (all_steps s) && (current_step s <? len (all_steps s) - 1) = false ->
  run_auto_play s = (s, [display_current_step s]).
Proof.
  intros Hc. rewrite run_auto_play_equation_1.
  destruct (bool_dec _ true) as [Ht | Hf]; [congruence | reflexivity].
Qed.

Lemma run_auto_play_more (s : BinarySearchApp) (d : display) :
  py_bool (all_steps s) && (current_step s <? len (all_steps s) - 1) = true ->
  display_current_step (set_current_step s (current_step s + 1)) = Ok d ->
  run_auto_play s
  = (fst (run_auto_play (set_current_step s (current_step s + 1))),
     Ok d :: snd (run_auto_play (set_current_step s (current_step s + 1)))).
Proof.
  intros Hc Hd. rewrite run_auto_play_equation_1.
  destruct (bool_dec _ true) as [Ht | Hf]; [| congruence].
  cbn. rewrite Hd. reflexivity.
Qed.

Lemma run_auto_play_spec (n : nat) :
  forall s, bound s -> frames_left s = n ->
    fst (run_auto_play s) = set_current_step s (len (all_steps s) - 1) /\
    List.length (snd (run_auto_play s)) = S n /\
    forall k, (k <= n)%nat ->
      nth_error (snd (run_auto_play s)) k
      = Some (display_current_step
                (set_current_step s
                   (Z.min (current_step s + 1 + Z.of_nat k)
                      (len (all_steps s) - 1)))).
Proof.
  induction n as [| n IH]; intros s Hb Hn.
  - destruct Hb as [Hne Hc]. unfold frames_left in Hn.
    assert (current_step s = len (all_steps s) - 1) as Hlast by lia.
    rewrite run_auto_play_done.
    2:{ destruct (Z.ltb_spec (current_step s) (len (all_steps s) - 1));
          [lia | apply andb_false_r]. }
    cbn [fst snd List.length]. rewrite <- Hlast.
    split; [symmetry; apply set_current_step_same |].
    split; [reflexivity |]. intros k Hk.
    assert (k = 0%nat) as -> by lia. cbn [nth_error].
    replace (Z.min (current_step s + 1 + Z.of_nat 0) (current_step s))
      with (current_step s) by lia.
    rewrite set_current_step_same. reflexivity.
  - pose proof Hb as [Hne Hc]. unfold frames_left in Hn.
    set (s1 := set_current_step s (current_step s + 1)).
    assert (bound s1) as Hb1 by (split; [exact Hne | cbn; lia]).
    assert (frames_left s1 = n) as Hn1 by (unfold frames_left; cbn; lia).
    destruct (display_ok Hb1) as [d Hd].
    rewrite (@run_auto_play_more s d).
    2:{ destruct (all_steps s); [congruence |]. cbn [py_bool andb].
        apply Z.ltb_lt. lia. }
    2:{ exact Hd. }
    fold s1. destruct (IH s1 Hb1 Hn1) as [Hfst [Hlen Hnth]].
    cbn [fst snd List.length].
    split; [rewrite Hfst; reflexivity |].
    split; [rewrite Hlen; reflexivity |].
    intros [| k] Hk; cbn [nth_error].
    + replace (Z.min (current_step s + 1 + Z.of_nat 0)
                 (len (all_steps s) - 1))
        with (current_step s + 1) by lia.
      fold s1. rewrite Hd. reflexivity.
    + rewrite Hnth by lia. subst s1.
      rewrite set_current_step_twice.
      change (current_step (set_current_step s (current_step s + 1)))
        with (current_step s + 1).
      change (all_steps (set_current_step s (current_step s + 1)))
        with (all_steps s).
      replace (current_step s + 1 + 1 + Z.of_nat k)
        with (current_step s + 1 + Z.of_nat (S k)) by lia.
      reflexivity.
Qed.

Lemma run_auto_play_no_trace (s : BinarySearchApp) :
  all_steps s = [] -> fst (run_auto_play s) = s.
Proof.
  intros Hnil. rewrite run_auto_play_done; [reflexivity |].
  rewrite Hnil. reflexivity.
Qed.

Lemma run_auto_play_frames_aux (s : BinarySearchApp) :
  bound s ->
  fst (run_auto_play s) = set_current_step s (len (all_steps s) - 1) /\
  len (snd (run_auto_play s)) = len (all_steps s) - current_step s /\
  (forall k, 0 <= k < len (all_steps s) - current_step s ->
     py_index (snd (run_auto_play s)) k
     = Ok (display_current_step
             (set_current_step s
                (Z.min (current_step s + 1 + k) (len (all_steps s) - 1))))) /\
  Forall (fun f => exists d, f = Ok d) (snd (run_auto_play s)).
Proof.
  intros Hb. pose proof Hb as [Hne Hc].
  destruct (@run_auto_play_spec (frames_left s) s Hb eq_refl)
    as [Hfst [Hlen Hnth]].
  split; [exact Hfst |].
  assert (len (snd (run_auto_play s)) = len (all_steps s) - current_step s)
    as Hlen'.
  { unfold len at 1. rewrite Hlen. unfold frames_left. lia. }
  split; [exact Hlen' |]. split.
  - intros k Hk.
    destruct (@py_index_nonneg _ (snd (run_auto_play s)) k) as [f [Hf Hfn]];
      [lia |].
    rewrite Hnth in Hfn by (unfold frames_left; lia).
    rewrite Z2Nat.id in Hfn by lia. congruence.
  - apply Forall_forall. intros f Hf.
    apply In_nth_error in Hf. destruct Hf as [k Hk].
    assert (k < List.length (snd (run_auto_play s)))%nat as Hklt
      by (apply nth_error_Some; congruence).
    rewrite Hnth in Hk by lia. injection Hk as <-.
    apply display_ok. split; [exact Hne | cbn; lia].
Qed.

(** X14.  With a bound trace the generator [run_auto_play] leaves the
    cursor on the last step and changes nothing else.  From cursor [c] in a
    trace of [n] steps it yields [n - c] displays, none of them an
    exception: those of the steps [c+1 .. n-1] in order, and the display of
    the last step once more. *)
Theorem run_auto_play_frames (s : BinarySearchApp) :
  bound s ->
  fst (run_auto_play s) = set_current_step s (len (all_steps s) - 1) /\
  len (snd (run_auto_play s)) = len (all_steps s) - current_step s /\
  (forall k, 0 <= k < len (all_steps s) - current_step s ->
     py_index (snd (run_auto_play s)) k
     = Ok (display_current_step
             (set_current_step s
                (Z.min (current_step s + 1 + k) (len (all_steps s) - 1))))) /\
  Forall (fun f => exists d, f = Ok d) (snd (run_auto_play s)).
Proof. apply run_auto_play_frames_aux. Qed.

(** From the third of four steps the generator yields two displays. *)
Lemma run_auto_play_frames_witness :
  bound found_search_midway /\
  fst (run_auto_play found_search_midway)
  = set_current_step found_search_midway
      (len (all_steps found_search_midway) - 1) /\
  len (snd (run_auto_play found_search_midway))
  = len (all_steps found_search_midway)
    - current_step found_search_midway /\
  (forall k,
     0 <= k < len (all_steps found_search_midway)
              - current_step found_search_midway ->
     py_index (snd (run_auto_play found_search_midway)) k
     = Ok (display_current_step
             (set_current_step found_search_midway
                (Z.min (current_step found_search_midway + 1 + k)
                   (len (all_steps found_search_midway) - 1))))) /\
  Forall (fun f => exists d, f = Ok d)
    (snd (run_auto_play found_search_midway)).
Proof.
  assert (bound found_search_midway) as Hb by bound_by_computation.
  split; [exact Hb |]. exact (@run_auto_play_frames _ Hb).
Defined.

(** ** Every sequence of calls *)

Lemma generate_array_frame (s : BinarySearchApp) (size : Z) (g : bool)
    (t : Z) (sample : list Z) (idx : Z) :
  let s' := fst (generate_array s size g t sample idx) in
  current_target s' = current_target s /\ algorithm s' = algorithm s /\
  visualizer s' = visualizer s /\ current_step s' = current_step s /\
  all_steps s' = all_steps s /\ is_playing s' = is_playing s.
Proof.
  unfold generate_array.
  destruct ((size <? 0) || (100 <? size)); [repeat split |].
  destruct (g && negb (py_in t (current_array
                                  (set_current_array s (sorted sample)))));
    [| repeat split].
  destruct (size - 1 <? 0); [repeat split |].
  destruct (py_setitem _ idx t); repeat split.
Qed.

Lemma steady_same_trace (s s' : BinarySearchApp) :
  steady s -> all_steps s' = all_steps s ->
  current_step s' = current_step s -> steady s'.
Proof.
  unfold steady, bound. intros H Ha Hc. rewrite Ha, Hc. exact H.
Qed.

Lemma steady_handle (s : BinarySearchApp) (e : event) :
  steady s -> steady (handle s e).
Proof.
  intros Hs. destruct e as [size g t sample idx | t | t | | | | | |];
    cbn [handle].
  - destruct (generate_array_frame s size g t sample idx)
      as [_ [_ [_ [Hc [Ha _]]]]].
    apply (@steady_same_trace s _ Hs Ha Hc).
  - unfold searching_for.
    destruct (current_array s) as [| a rest] eqn:Harr.
    + cbn. exact Hs.
    + destruct (@initialize_search_ok s (a :: rest) t)
        as [alg [d [_ [Hb [_ Hinit]]]]]; [discriminate |].
      rewrite Hinit. right. exact Hb.
  - exact Hs.
  - destruct Hs as [[Hnil H0] | Hb].
    + left. unfold next_step. rewrite Hnil, H0. cbn. split; assumption.
    + right. pose proof (next_step_cursor Hb) as Hc.
      apply (bound_moved Hb (next_step_session s)).
      destruct Hb as [_ Hb]. lia.
  - destruct Hs as [[Hnil H0] | Hb].
    + left. unfold previous_step. rewrite H0. cbn. split; assumption.
    + right. pose proof (previous_step_cursor Hb) as Hc.
      apply (bound_moved Hb (previous_step_session s)).
      destruct Hb as [_ Hb]. lia.
  - rewrite reset_search_state.
    destruct Hs as [[Hnil H0] | [Hne Hc]].
    + left. split; [exact Hnil | reflexivity].
    + right. split; [exact Hne | cbn; lia].
  - destruct Hs as [[Hnil H0] | Hb].
    + left. rewrite (run_auto_play_no_trace _ Hnil). split; assumption.
    + right. destruct (run_auto_play_frames_aux Hb) as [-> _].
      destruct Hb as [Hne Hc]. split; [exact Hne | cbn; lia].
  - exact Hs.
  - unfold auto_play_step. destruct (negb (is_playing s)); [exact Hs |].
    destruct (Z.ltb_spec (current_step s) (len (all_steps s) - 1));
      cbn [fst]; [| exact Hs].
    destruct Hs as [[Hnil H0] | [Hne Hc]].
    + rewrite Hnil, H0 in H. cbn in H. lia.
    + right. split; [exact Hne | cbn; lia].
Qed.

Lemma steady_display_ok (s : BinarySearchApp) :
  steady s -> exists d, display_current_step s = Ok d.
Proof.
  intros [[Hnil _] | Hb]; [| apply (display_ok Hb)].
  unfold display_current_step. rewrite Hnil. eexists. reflexivity.
Qed.

Lemma steady_fold (es : list event) :
  forall s, steady s -> steady (fold_left handle es s).
Proof.
  induction es as [| e es IH]; intros s Hs; [exact Hs |].
  cbn [fold_left]. apply IH. apply steady_handle. exact Hs.
Qed.

(** X15.  After any sequence of calls on a new [BinarySearchApp], with any
    arguments and any random draws, the object either has no trace and the
    cursor on 0 or has a bound trace; so [display_current_step] returns and
    no further navigation call raises [IndexError]. *)
Theorem display_never_raises (es : list event) :
  steady (after es) /\
  (exists d, display_current_step (after es) = Ok d) /\
  (exists d, snd (next_step (after es)) = Ok d) /\
  (exists d, snd (previous_step (after es)) = Ok d) /\
  (exists d, snd (reset_search (after es)) = Ok d) /\
  (exists d b, snd (auto_play_step (after es)) = Ok (d, b)) /\
  Forall (fun f => exists d, f = Ok d) (snd (run_auto_play (after es))).
Proof.
  assert (steady (after es)) as Hs.
  { apply steady_fold. left. split; reflexivity. }
  split; [exact Hs |].
  split; [apply (steady_display_ok Hs) |].
  split; [apply (steady_display_ok (steady_handle Next Hs)) |].
  split; [apply (steady_display_ok (steady_handle Previous Hs)) |].
  split; [| split].
  - unfold reset_search. cbn [all_steps set_current_step].
    destruct (all_steps (after es)) eqn:Hall; cbn [snd].
    + eexists. reflexivity.
    + pose proof (steady_handle Reset Hs) as Hr. cbn [handle] in Hr.
      rewrite reset_search_state in Hr. apply (steady_display_ok Hr).
  - pose proof (steady_handle AutoPlayStep Hs) as Ha. cbn [handle] in Ha.
    destruct (steady_display_ok Ha) as [d Hd]. revert Hd.
    unfold auto_play_step.
    destruct (negb (is_playing (after es)));
      [| destruct (current_step (after es)
                   <? len (all_steps (after es)) - 1)];
      cbn [fst snd]; intros ->; eexists; eexists; reflexivity.
  - destruct Hs as [[Hnil H0] | Hb].
    + rewrite run_auto_play_done by (rewrite Hnil; reflexivity).
      cbn [snd]. constructor; [| constructor].
      unfold display_current_step. rewrite Hnil. eexists. reflexivity.
    + apply (run_auto_play_frames_aux Hb).
Qed.

(** ** Sorting and list assignment *)

Lemma insert_ascending_perm (x : Z) (l : list Z) :
  Permutation (x :: l) (insert_ascending x l).
Proof.
  induction l as [| y l IH]; cbn; [apply Permutation_refl |].
  destruct (x <=? y); [apply Permutation_refl |].
  apply perm_trans with (y :: x :: l); [apply perm_swap |].
  apply perm_skip. exact IH.
Qed.

Lemma insert_ascending_HdRel (a x : Z) (l : list Z) :
  HdRel Z.le a l -> a <= x -> HdRel Z.le a (insert_ascending x l).
Proof.
  intros Hl Hax. destruct l as [| y l]; cbn.
  - constructor. exact Hax.
  - destruct (x <=? y); constructor; [exact Hax |].
    inversion Hl. assumption.
Qed.

Lemma insert_ascending_sorted (x : Z) (l : list Z) :
  Sorted Z.le l -> Sorted Z.le (insert_ascending x l).
Proof.
  induction 1 as [| y l Hl IH Hy]; cbn.
  - repeat constructor.
  - destruct (Z.leb_spec x y).
    + constructor; [constructor; assumption | constructor; assumption].
    + constructor; [exact IH |].
      apply insert_ascending_HdRel; [exact Hy | lia].
Qed.

Lemma sorted_perm (l : list Z) : Permutation l (sorted l).
Proof.
  induction l as [| x l IH]; cbn; [constructor |].
  apply perm_trans with (x :: sorted l); [apply perm_skip; exact IH |].
  apply insert_ascending_perm.
Qed.

Lemma sorted_ascending (l : list Z) : Sorted Z.le (sorted l).
Proof.
  induction l as [| x l IH]; cbn; [constructor |].
  apply insert_ascending_sorted. exact IH.
Qed.

Lemma sorted_len (l : list Z) : len (sorted l) = len l.
Proof.
  unfold len. rewrite <- (Permutation_length (sorted_perm l)). reflexivity.
Qed.

(** An ascending list without repetition is strictly ascending. *)
Lemma ascending_strict (l : list Z) :
  Sorted Z.le l -> NoDup l -> Sorted Z.lt l.
Proof.
  intros Hs Hnd. apply Sorted_StronglySorted in Hs; [| exact Z.le_trans].
  apply StronglySorted_Sorted.
  induction Hs as [| x l Hs IH Hall]; [constructor |].
  inversion Hnd as [| ? ? Hnot Hnd']; subst.
  constructor; [apply IH; exact Hnd' |].
  rewrite Forall_forall in *. intros y Hy.
  assert (x <> y) by (intros ->; contradiction).
  specialize (Hall y Hy). lia.
Qed.

Lemma py_in_iff (x : Z) (l : list Z) : py_in x l = true <-> In x l.
Proof.
  unfold py_in. rewrite existsb_exists. split.
  - intros [y [Hy Heq]]. apply Z.eqb_eq in Heq. subst. exact Hy.
  - intros Hx. exists x. split; [exact Hx | apply Z.eqb_refl].
Qed.

(** Assignment at a position of the list replaces the element there. *)
Lemma py_setitem_nonneg {A : Type} (l : list A) (i : Z) (v : A) :
  0 <= i <= len l - 1 ->
  exists a x b,
    l = (a ++ x :: b)%list /\ py_setitem l i v = Ok (a ++ v :: b)%list.
Proof.
  intros Hi. unfold py_setitem.
  destruct (Z.leb_spec 0 i); [| lia].
  destruct (Z.ltb_spec i (len l)); [| lia]. cbn [andb].
  destruct (@py_index_nonneg _ l i) as [x [_ Hx]]; [lia |].
  exists (firstn (Z.to_nat i) l), x, (skipn (S (Z.to_nat i)) l).
  split; [| reflexivity].
  rewrite <- (skipn_nth_error _ _ Hx). symmetry. apply firstn_skipn.
Qed.

(** ** [generate_array] *)

(** What [generate_array] stores and returns once the draws are made. *)
Lemma generate_array_result (s : BinarySearchApp) (size : Z) (g : bool)
    (t : Z) (sample : list Z) (idx : Z) :
  is_sample size sample -> size <= 100 -> is_randint size idx ->
  exists arr,
    generate_array s size g t sample idx
    = (set_current_array s arr,
       Returned (arr, ("Generated sorted array of size " ++ str size)%string))
    /\
    Sorted Z.lt arr /\ len arr = size /\
    Forall (fun x => 1 <= x <= 100 \/ x = t) arr /\
    (g = true -> In t arr) /\
    (g = false -> Permutation sample arr).
Proof.
  intros [Hlen [Hnd Hrange]] Hmax [Hi0 Hi1].
  assert (NoDup (sorted sample)) as Hnd_sorted
    by (apply (Permutation_NoDup (sorted_perm sample)); exact Hnd).
  assert (Forall (fun x => 1 <= x <= 100 \/ x = t) (sorted sample)) as Hr1.
  { apply (Permutation_Forall (sorted_perm sample)).
    eapply Forall_impl; [| exact Hrange]. intros x Hx. left. exact Hx. }
  unfold generate_array.
  destruct (Z.ltb_spec size 0); [lia |].
  destruct (Z.ltb_spec 100 size); [lia |]. cbn [orb].
  cbn [current_array set_current_array].
  destruct (g && negb (py_in t (sorted sample))) eqn:Hcond.
  - apply andb_prop in Hcond. destruct Hcond as [-> Hnotin].
    apply negb_true_iff in Hnotin.
    assert (~ In t (sorted sample)) as Hnot
      by (rewrite <- py_in_iff; congruence).
    destruct (Z.ltb_spec (size - 1) 0); [lia |].
    destruct (@py_setitem_nonneg _ (sorted sample) idx t)
      as [a [x [b [Hsplit Hset]]]]; [rewrite sorted_len; lia |].
    rewrite Hset.
    assert (Permutation (t :: a ++ b) (a ++ t :: b)) as Hperm
      by apply Permutation_middle.
    assert (NoDup (a ++ t :: b)) as Hnd2.
    { rewrite Hsplit in Hnd_sorted, Hnot.
      apply (Permutation_NoDup Hperm). constructor.
      - intros Hin. apply Hnot. apply in_app_or in Hin.
        apply in_or_app. destruct Hin; [left | right; right]; assumption.
      - apply NoDup_remove_1 in Hnd_sorted. exact Hnd_sorted. }
    exists (sorted (a ++ t :: b)).
    split; [reflexivity |]. split; [| split; [| split; [| split]]].
    + apply ascending_strict; [apply sorted_ascending |].
      apply (Permutation_NoDup (sorted_perm _)). exact Hnd2.
    + rewrite sorted_len, <- Hlen, <- (sorted_len sample), Hsplit.
      rewrite !len_app, !len_cons. reflexivity.
    + apply (Permutation_Forall (sorted_perm _)).
      rewrite Hsplit in Hr1. apply Forall_app in Hr1.
      destruct Hr1 as [Ha Hxb]. inversion Hxb; subst.
      apply Forall_app. split; [exact Ha |].
      constructor; [right; reflexivity | assumption].
    + intros _. apply (Permutation_in _ (sorted_perm _)).
      apply in_or_app. right. left. reflexivity.
    + discriminate.
  - exists (sorted sample).
    split; [reflexivity |]. split; [| split; [| split; [| split]]].
    + apply ascending_strict; [apply sorted_ascending | exact Hnd_sorted].
    + rewrite sorted_len. exact Hlen.
    + exact Hr1.
    + intros ->. cbn [andb] in Hcond. apply negb_false_iff in Hcond.
      apply py_in_iff. exact Hcond.
    + intros _. apply sorted_perm.
Qed.

Lemma scenario_sample_ok : is_sample 10 scenario_sample.
Proof.
  split; [reflexivity |]. split.
  - unfold scenario_sample.
    repeat (constructor; [cbn; intros H; repeat destruct H as [H | H];
                          try discriminate; contradiction |]).
    constructor.
  - unfold scenario_sample. repeat constructor; lia.
Qed.

(** X16.  Given draws as [random.sample] and [random.randint] can return
    them, [generate_array] does not raise; the array it stores and returns
    is strictly ascending, has [size] elements, holds only values between 1
    and 100 and possibly the target, holds the target when the guarantee is
    asked for, and is a rearrangement of the sample when it is not. *)
Theorem generate_array_ascending (s : BinarySearchApp) (size : Z) (g : bool)
    (t : Z) (sample : list Z) (idx : Z) :
  is_sample size sample -> size <= 100 -> is_randint size idx ->
  exists arr msg,
    snd (generate_array s size g t sample idx) = Returned (arr, msg) /\
    current_array (fst (generate_array s size g t sample idx)) = arr /\
    Sorted Z.lt arr /\ len arr = size /\
    Forall (fun x => 1 <= x <= 100 \/ x = t) arr /\
    (g = true -> In t arr) /\
    (g = false -> Permutation sample arr).
Proof.
  intros Hs Hmax Hi.
  destruct (generate_array_result s g t Hs Hmax Hi) as [arr [Hgen Hrest]].
  exists arr. eexists. rewrite Hgen. cbn [fst snd].
  split; [reflexivity |]. split; [reflexivity | exact Hrest].
Qed.

(** The scenario sample with the value 60 guaranteed is an instance. *)
Lemma generate_array_ascending_witness :
  is_sample 10 scenario_sample /\ 10 <= 100 /\ is_randint 10 3 /\
  exists arr msg,
    snd (generate_array BinarySearchApp_init 10 true 60 scenario_sample 3)
    = Returned (arr, msg) /\
    current_array
      (fst (generate_array BinarySearchApp_init 10 true 60 scenario_sample 3))
    = arr /\
    Sorted Z.lt arr /\ len arr = 10 /\
    Forall (fun x => 1 <= x <= 100 \/ x = 60) arr /\
    (true = true -> In 60 arr) /\
    (true = false -> Permutation scenario_sample arr).
Proof.
  assert (10 <= 100) as Hmax by lia.
  assert (is_randint 10 3) as Hi by (unfold is_randint; lia).
  split; [exact scenario_sample_ok |]. split; [exact Hmax |].
  split; [exact Hi |].
  exact (@generate_array_ascending BinarySearchApp_init 10 true 60
           scenario_sample 3 scenario_sample_ok Hmax Hi).
Defined.

(** The scenario: the sample sorted is the scenario array; with 60
    guaranteed, the value at position 3 gives way to it. *)
Example generate_array_scenario :
  current_array
    (fst (generate_array BinarySearchApp_init 10 false 60 scenario_sample 3))
  = scenario_array /\
  snd (generate_array BinarySearchApp_init 10 true 60 scenario_sample 3)
  = Returned ([1; 5; 9; 17; 23; 29; 34; 41; 50; 60],
              "Generated sorted array of size 10").
Proof. split; vm_compute; reflexivity. Qed.

(** X17.  [generate_array] raises [ValueError] and leaves the object as it
    was when [size] is negative or above 100.  For [size] 0 with the
    guarantee asked for it also raises [ValueError], but only after it has
    replaced the stored array by the empty one. *)
Theorem generate_array_value_error (s : BinarySearchApp) (g : bool) (t : Z)
    (sample : list Z) (idx : Z) :
  (forall size, size < 0 \/ 100 < size ->
     generate_array s size g t sample idx = (s, Raised ExcValueError)) /\
  (is_sample 0 sample ->
     generate_array s 0 true t sample idx
     = (set_current_array s [], Raised ExcValueError) /\
     generate_array s 0 false t sample idx
     = (set_current_array s [],
        Returned ([], "Generated sorted array of size 0"))).
Proof.
  split.
  - intros size Hsize. unfold generate_array.
    destruct (Z.ltb_spec size 0); [reflexivity |].
    destruct (Z.ltb_spec 100 size); [reflexivity | lia].
  - intros [Hlen _]. destruct sample as [| x sample];
      [| unfold len in Hlen; cbn in Hlen; lia].
    split; reflexivity.
Qed.

(** X18.  Whatever its arguments and draws, and whether it returns or
    raises, [generate_array] touches nothing but [current_array]: a trace
    bound before stays bound, with its cursor, its algorithm object and its
    target, although it belongs to the array that was replaced. *)
Theorem generate_array_keeps_trace (s : BinarySearchApp) (size : Z)
    (g : bool) (t : Z) (sample : list Z) (idx : Z) :
  current_target (fst (generate_array s size g t sample idx))
  = current_target s /\
  algorithm (fst (generate_array s size g t sample idx)) = algorithm s /\
  visualizer (fst (generate_array s size g t sample idx)) = visualizer s /\
  current_step (fst (generate_array s size g t sample idx))
  = current_step s /\
  all_steps (fst (generate_array s size g t sample idx)) = all_steps s /\
  is_playing (fst (generate_array s size g t sample idx)) = is_playing s /\
  (bound s -> bound (fst (generate_array s size g t sample idx))).
Proof.
  destruct (generate_array_frame s size g t sample idx)
    as [Ht [Halg [Hv [Hc [Ha Hp]]]]].
  split; [exact Ht |]. split; [exact Halg |]. split; [exact Hv |].
  split; [exact Hc |]. split; [exact Ha |]. split; [exact Hp |].
  unfold bound. rewrite Ha, Hc. trivial.
Qed.

(** ** From generating to finding *)

Lemma execute_found_if_present (A : list Z) (T : Z) :
  Sorted Z.le A -> In T A ->
  exists alg,
    execute (BinarySearchAlgorithm_init A T) = Ok alg /\ found alg = true.
Proof.
  intros Hsorted Hin.
  destruct (execute_spec A T) as [st [new [Hres [_ Hex]]]].
  assert (found (ls_self st) = true) as Hfound.
  { apply (@while_loop_finds 0 (len A - 1) (entered A T));
      [exact Hsorted | lia | | exact Hres].
    destruct (In_py_index A T Hin) as [i [Hi Hti]].
    exists i. split; assumption. }
  exists (ls_self st). split; [| exact Hfound].
  rewrite Hex. unfold finished. rewrite Hfound. reflexivity.
Qed.

Lemma Sorted_lt_le (l : list Z) : Sorted Z.lt l -> Sorted Z.le l.
Proof.
  induction 1 as [| x l Hl IH Hx]; constructor; [exact IH |].
  destruct Hx; constructor. lia.
Qed.

(** X19.  When an array is generated with the guarantee asked for and a
    search for the same target is started on it, the search finds the
    target: the stored algorithm object has [found] set and [found_index]
    is a position of the stored array holding the target. *)
Theorem guaranteed_target_is_found (s : BinarySearchApp) (size : Z) (t : Z)
    (sample : list Z) (idx : Z) :
  is_sample size sample -> size <= 100 -> is_randint size idx ->
  exists s' d alg,
    initialize_search
      (fst (generate_array s size true t sample idx))
      (current_array (fst (generate_array s size true t sample idx))) t
    = Ok (s', d) /\
    algorithm s' = Some alg /\ all_steps s' = steps alg /\
    found alg = true /\
    py_index (current_array s') (found_index alg) = Ok t /\
    0 <= found_index alg <= size - 1.
Proof.
  intros Hs Hmax Hi.
  destruct (generate_array_result s true t Hs Hmax Hi)
    as [arr [Hgen [Hsorted [Hlen [_ [Hin _]]]]]].
  rewrite Hgen. cbn [fst current_array set_current_array].
  specialize (Hin eq_refl).
  assert (arr <> []) as Hne by (intros ->; contradiction).
  destruct (@initialize_search_ok (set_current_array s arr) arr t Hne)
    as [alg [d [Hex [_ [_ Hinit]]]]].
  destruct (execute_found_if_present t (Sorted_lt_le Hsorted) Hin)
    as [alg' [Hex' Hfound]].
  assert (alg' = alg) as -> by congruence.
  destruct (execute_outcome arr t) as [alg' [Hex'' [Hhit _]]].
  assert (alg' = alg) as -> by congruence.
  destruct (Hhit Hfound) as [Hb [Hv _]].
  exists (started (set_current_array s arr) alg t), d, alg.
  split; [exact Hinit |]. cbn.
  repeat split; try assumption; lia.
Qed.

(** The scenario sample with the value 60 guaranteed is an instance. *)
Lemma guaranteed_target_is_found_witness :
  is_sample 10 scenario_sample /\ 10 <= 100 /\ is_randint 10 3 /\
  exists s' d alg,
    initialize_search
      (fst (generate_array BinarySearchApp_init 10 true 60
              scenario_sample 3))
      (current_array
         (fst (generate_array BinarySearchApp_init 10 true 60
                 scenario_sample 3))) 60
    = Ok (s', d) /\
    algorithm s' = Some alg /\ all_steps s' = steps alg /\
    found alg = true /\
    py_index (current_array s') (found_index alg) = Ok 60 /\
    0 <= found_index alg <= 10 - 1.
Proof.
  assert (10 <= 100) as Hmax by lia.
  assert (is_randint 10 3) as Hi by (unfold is_randint; lia).
  split; [exact scenario_sample_ok |]. split; [exact Hmax |].
  split; [exact Hi |].
  exact (@guaranteed_target_is_found BinarySearchApp_init 10 60
           scenario_sample 3 scenario_sample_ok Hmax Hi).
Defined.

(** The generator on the scenario: from the third of four steps it yields
    the display of the last step twice. *)
Example run_auto_play_scenario :
  map (fun f => match f with
                | Ok d => step_info d
                | IndexError => "IndexError"
                end)
      (snd (run_auto_play found_search_midway))
  = ["Step 4 of 4"; "Step 4 of 4"] /\
  current_step (fst (run_auto_play found_search_midway)) = 3.
Proof. split; vm_compute; reflexivity. Qed.
